(** * couchdb.design: design-document definitions and their synchronisation

    A shallow embedding of [couchdb/design.py]: the Python values that
    occur in design documents, the string normalisation done when a
    definition is constructed, the [sync_many] read-merge-write routine
    and the [ViewDefinition.__call__] option merge, followed by the
    properties proved about them. *)

From stdpp Require Import gmap strings list fin_maps.
From Stdlib Require Import ZArith Ascii String.

Local Open Scope string_scope.
Local Open Scope list_scope.
Local Open Scope nat_scope.

(** ** Python values *)

(** The values found in documents and keyword arguments.  JSON [true] and
    [false] are the numbers 1 and 0 under Python's [==], so they are
    numbers here as well; [VFunc] is a reference to a callable (a result
    wrapper), equal to itself only.  A [dict] with string keys is a
    [gmap]: Python compares dictionaries without regard to order. *)
#[warnings="-register-all"]
Inductive value :=
  | VNone
  | VNum (z : Z)
  | VStr (s : string)
  | VFunc (ref : string)
  | VList (l : list value)
  | VDict (m : gmap string value).

Abbreviation document := (gmap string value).

Fixpoint value_size (v : value) : nat :=
  match v with
  | VList l => S (foldr (λ x n, value_size x + n) 0 l)
  | VDict m => S (map_fold (λ _ x n, value_size x + n) 0 m)
  | _ => 1
  end.

Fixpoint list_eqb {A} (eqb : A → A → bool) (l1 l2 : list A) : bool :=
  match l1, l2 with
  | [], [] => true
  | x :: l1, y :: l2 => eqb x y && list_eqb eqb l1 l2
  | _, _ => false
  end.

(** [dict.__eq__]: the same keys, and equal values under every key. *)
Definition dict_eqb {A} (eqb : A → A → bool) (m1 m2 : gmap string A) : bool :=
  bool_decide (dom m1 = dom m2) &&
  forallb (λ kv, match m2 !! kv.1 with
                 | Some y => eqb kv.2 y
                 | None => false
                 end) (map_to_list m1).

(** Python's [==] on values, by recursion on a bound of the nesting. *)
Fixpoint value_eqb_fuel (n : nat) (v1 v2 : value) : bool :=
  match n with
  | O => false
  | S n =>
      match v1, v2 with
      | VNone, VNone => true
      | VNum a, VNum b => bool_decide (a = b)
      | VStr a, VStr b => bool_decide (a = b)
      | VFunc a, VFunc b => bool_decide (a = b)
      | VList l1, VList l2 => list_eqb (value_eqb_fuel n) l1 l2
      | VDict m1, VDict m2 => dict_eqb (value_eqb_fuel n) m1 m2
      | _, _ => false
      end
  end.

Definition value_eqb (v1 v2 : value) : bool :=
  value_eqb_fuel (value_size v1) v1 v2.

(** [doc == orig_doc] on documents. *)
Definition doc_eqb (d1 d2 : document) : bool := dict_eqb value_eqb d1 d2.

(** Truth value of an object in a condition ([if view.options:]). *)
Definition truthy (v : value) : bool :=
  match v with
  | VNone => false
  | VNum z => negb (z =? 0)%Z
  | VStr s => negb (bool_decide (s = ""))
  | VFunc _ => true
  | VList l => negb (bool_decide (l = []))
  | VDict m => negb (bool_decide (dom m = ∅))
  end.

(** Lists and dictionaries cannot be members of a [set]. *)
Definition hashable (v : value) : bool :=
  match v with
  | VList _ | VDict _ => false
  | _ => true
  end.

(** ** Exceptions *)

Inductive exception :=
  | AssertionError
  | AttributeError
  | TypeError
  | KeyError
  | IndexError
  | ValueError (languages : list value).

Inductive result (A : Type) :=
  | OK (a : A)
  | Raise (e : exception).
Arguments OK {A} a.
Arguments Raise {A} e.

#[global] Instance result_ret : MRet result := λ A a, OK a.
#[global] Instance result_bind : MBind result := λ A B f r,
  match r with
  | OK a => f a
  | Raise e => Raise e
  end.

Definition succeeds {A} (r : result A) : Prop := ∃ a, r = OK a.

(** ** Python string methods *)

Module Str.

Definition LF : ascii := "010"%char.
Definition CR : ascii := "013"%char.
Definition TAB : ascii := "009"%char.
Definition SP : ascii := " "%char.

(** The characters [str.isspace] accepts and [str.strip] removes. *)
Definition is_whitespace (c : ascii) : bool :=
  bool_decide (c ∈ [SP; TAB; LF; "011"%char; "012"%char; CR]).

(** The class [[ \t]] of [textwrap]'s regular expressions. *)
Definition is_blank (c : ascii) : bool :=
  bool_decide (c = SP) || bool_decide (c = TAB).

Definition is_LF (c : ascii) : bool := bool_decide (c = LF).

Fixpoint all_chars (p : ascii → bool) (s : string) : bool :=
  match s with
  | "" => true
  | String c s' => p c && all_chars p s'
  end.

(** [s.lstrip(chars)], the characters given as a predicate. *)
Fixpoint lstrip (p : ascii → bool) (s : string) : string :=
  match s with
  | "" => ""
  | String c s' => if p c then lstrip p s' else s
  end.

(** [s.rstrip(chars)]. *)
Fixpoint rstrip (p : ascii → bool) (s : string) : string :=
  match s with
  | "" => ""
  | String c s' =>
      match rstrip p s' with
      | "" => if p c then "" else String c ""
      | r => String c r
      end
  end.

(** [s.isspace()]: not empty, and whitespace only. *)
Definition isspace (s : string) : bool :=
  negb (bool_decide (s = "")) && all_chars is_whitespace s.

(** [s.startswith(p)]. *)
Fixpoint startswith (p s : string) : bool :=
  match p, s with
  | "", _ => true
  | String a p', String b s' => bool_decide (a = b) && startswith p' s'
  | _, "" => false
  end.

(** [s[n:]]. *)
Fixpoint drop (n : nat) (s : string) : string :=
  match n, s with
  | O, _ => s
  | S n', String _ s' => drop n' s'
  | S _, "" => ""
  end.

(** [s.splitlines()] of a byte string: lines end at LF, CR or CR LF, the
    terminators are not kept, and a final terminator opens no line. *)
Fixpoint splitlines (s : string) : list string :=
  match s with
  | "" => []
  | String c s' =>
      if bool_decide (c = LF) then "" :: splitlines s'
      else if bool_decide (c = CR) then
        match s' with
        | String c' s'' =>
            if bool_decide (c' = LF) then "" :: splitlines s''
            else "" :: splitlines s'
        | "" => [""]
        end
      else
        match splitlines s' with
        | [] => [String c ""]
        | l :: ls => String c l :: ls
        end
  end.

(** The lines a multi-line regular expression sees: split at every LF. *)
Fixpoint split_lf (s : string) : list string :=
  match s with
  | "" => [""]
  | String c s' =>
      if bool_decide (c = LF) then "" :: split_lf s'
      else
        match split_lf s' with
        | [] => [String c ""]
        | l :: ls => String c l :: ls
        end
  end.

(** [sep.join(l)]. *)
Fixpoint join (sep : string) (l : list string) : string :=
  match l with
  | [] => ""
  | [x] => x
  | x :: l' => x +:+ sep +:+ join sep l'
  end.

Definition NL : string := String LF "".

(** The longest run of [[ \t]] a line starts with. *)
Fixpoint indent_of (s : string) : string :=
  match s with
  | "" => ""
  | String c s' => if is_blank c then String c (indent_of s') else ""
  end.

Fixpoint common_prefix (a b : string) : string :=
  match a, b with
  | String x a', String y b' =>
      if bool_decide (x = y) then String x (common_prefix a' b') else ""
  | _, _ => ""
  end.

(** [textwrap.dedent], as the standard library defines it: lines of
    blanks only become empty, the margin is the longest common prefix
    of the indentation of the remaining non-empty lines, and the margin
    is cut from every line that starts with it. *)
Definition blank_to_empty (l : string) : string :=
  if all_chars is_blank l then "" else l.

Definition margin_step (margin : option string) (l : string)
    : option string :=
  if bool_decide (l = indent_of l) then margin
  else match margin with
       | None => Some (indent_of l)
       | Some m => Some (common_prefix m (indent_of l))
       end.

Definition margin_of (lines : list string) : option string :=
  foldl margin_step None lines.

Definition cut_margin (m l : string) : string :=
  if startswith m l then drop (String.length m) l else l.

Definition dedent (text : string) : string :=
  let lines := map blank_to_empty (split_lf text) in
  match margin_of lines with
  | Some m =>
      if bool_decide (m = "") then join NL lines
      else join NL (map (cut_margin m) lines)
  | None => join NL lines
  end.

End Str.


(** ** Definitions: [DesignDefinition] and its subclasses *)

(** A function body as the caller passes it: [None], a string, or a
    function object, given by the text [inspect.getsource] returns. *)
Inductive source :=
  | SrcNone
  | SrcStr (code : string)
  | SrcFunc (text : string).

Record DesignDefinition := {
  design : string;
  name : string;
  map_fun : option string;
  reduce_fun : option string;
  filter_fun : option string;
  language : string;
  options : value;
  defaults : gmap string value
}.

Record ViewDefinition := {
  base :> DesignDefinition;
  wrapper : value
}.

(** A decorator line: [line.lstrip().startswith('@')]. *)
Definition is_decorator (line : string) : bool :=
  Str.startswith "@" (Str.lstrip Str.is_whitespace line).

(** The loop of [_strip_decorators], with its flag [beginning]. *)
Fixpoint strip_loop (beginning : bool) (lines : list string) : list string :=
  match lines with
  | [] => []
  | line :: rest =>
      if beginning && negb (Str.isspace line) then
        if is_decorator line
        then strip_loop true rest
        else line :: strip_loop false rest
      else line :: strip_loop beginning rest
  end.

Definition _strip_decorators (code : string) : string :=
  Str.join Str.NL (strip_loop true (Str.splitlines code)).

(** [if s:] on a string. *)
Definition nonempty (s : string) : bool := negb (bool_decide (s = "")).

(** The three steps [__init__] applies to each of [map_fun], [reduce_fun]
    and [filter_fun]. *)
Definition normalize (fun_ : source) : option string :=
  let fun_ :=
    match fun_ with
    | SrcFunc text =>
        Some (_strip_decorators (Str.rstrip Str.is_whitespace text))
    | SrcStr code => Some code
    | SrcNone => None
    end in
  match fun_ with
  | Some code =>
      Some (if nonempty code then Str.dedent (Str.lstrip Str.is_LF code)
            else code)
  | None => None
  end.

Definition is_None (fun_ : source) : bool :=
  match fun_ with
  | SrcNone => true
  | _ => false
  end.

(** [DesignDefinition.__init__]. *)
Definition DesignDefinition_init (design name : string)
    (map_fun reduce_fun : source) (language : string) (options : value)
    (filter_fun : source) (defaults : gmap string value)
    : result DesignDefinition :=
  let design :=
    if Str.startswith "_design/" design then Str.drop 8 design else design in
  if is_None map_fun && is_None filter_fun then Raise AssertionError
  else OK {| design := design;
             name := name;
             map_fun := normalize map_fun;
             reduce_fun := normalize reduce_fun;
             filter_fun := normalize filter_fun;
             language := language;
             options := options;
             defaults := defaults |}.

(** [ViewDefinition.__init__].  Its keyword arguments [**defaults] are
    passed on to [DesignDefinition.__init__], where the keyword
    [filter_fun] is a parameter: [filter_fun] is that keyword, [SrcNone]
    when it is not given, and [defaults] are the keywords that are no
    parameter of either initialiser. *)
Definition ViewDefinition_init (design name : string)
    (map_fun reduce_fun : source) (language : string) (wrapper options : value)
    (filter_fun : source) (defaults : gmap string value)
    : result ViewDefinition :=
  d ← DesignDefinition_init design name map_fun reduce_fun language options
         filter_fun defaults;
  OK {| base := d; wrapper := wrapper |}.

(** [FilterDefinition.__init__].  Its keyword arguments [**defaults] are
    passed on to [DesignDefinition.__init__], where the keywords [map_fun]
    and [reduce_fun] are parameters: [map_fun] and [reduce_fun] are those
    keywords, [SrcNone] when they are not given, and [defaults] are the
    keywords that are no parameter of either initialiser. *)
Definition FilterDefinition_init (design name : string) (filter_fun : source)
    (language : string) (options : value) (map_fun reduce_fun : source)
    (defaults : gmap string value) : result DesignDefinition :=
  DesignDefinition_init design name map_fun reduce_fun language options
    filter_fun defaults.

(** [ViewDefinition.__call__]: the path and the keyword arguments that
    [db.view] is called with. *)
Definition ViewDefinition_call (self : ViewDefinition)
    (options : gmap string value) : string * gmap string value :=
  let merged_options := options ∪ defaults self in
  let merged_options :=
    if bool_decide ("wrapper" ∈ dom merged_options) then merged_options
    else <["wrapper" := wrapper self]> merged_options in
  (Str.join "/" [design self; name self], merged_options).

(** ** The database handle *)

(** Modelled from the spec: the database client ([db.get], [db.update]) is
    an external collaborator.  A database is a store of documents keyed by
    id; every stored revision carries a counter under [_rev]. *)
Abbreviation database := (gmap string document).

(** Modelled from the spec: [get(documentId, default)] returns the stored
    document, which carries its id, or the default. *)
Definition db_get (db : database) (doc_id : string) (default : document)
    : document :=
  match db !! doc_id with
  | Some doc => <["_id" := VStr doc_id]> doc
  | None => default
  end.

Definition next_rev (rev : option value) : value :=
  match rev with
  | Some (VNum n) => VNum (n + 1)
  | _ => VNum 1
  end.

Definition rev_eqb (r1 r2 : option value) : bool :=
  match r1, r2 with
  | None, None => true
  | Some a, Some b => value_eqb a b
  | _, _ => false
  end.

(** Modelled from the spec: one document of a bulk update.  It is written
    when its [_rev] is the stored one (both missing for a new document)
    and is then stored with the next revision; otherwise the failure is
    reported for this document and nothing is written. *)
Definition db_put (db : database) (doc : document) : database :=
  match doc !! "_id" with
  | Some (VStr doc_id) =>
      let stored := db !! doc_id ≫= (.!! "_rev") in
      if rev_eqb stored (doc !! "_rev")
      then <[doc_id := <["_rev" := next_rev stored]> doc]> db
      else db
  | _ => db
  end.

(** Modelled from the spec: [update(sequenceOfDocuments)], the documents
    taken one after the other. *)
Definition db_update (db : database) (docs : list document) : database :=
  foldl db_put db docs.

(** ** [sync_many] *)

(** [itertools.groupby(views, key=attrgetter('design'))]: the maximal runs
    of neighbours with the same key, each with its key. *)
Fixpoint groupby (views : list DesignDefinition)
    : list (string * list DesignDefinition) :=
  match views with
  | [] => []
  | view :: rest =>
      match groupby rest with
      | (key, group) :: groups =>
          if bool_decide (design view = key)
          then (key, view :: group) :: groups
          else (design view, [view]) :: (key, group) :: groups
      | [] => [(design view, [view])]
      end
  end.

(** [list(doc.get(section, {}).keys())]. *)
Definition section_keys (section : string) (doc : document)
    : result (list string) :=
  match doc !! section with
  | None => OK []
  | Some (VDict m) => OK (map_to_list m).*1
  | Some _ => Raise AttributeError
  end.

(** [doc.setdefault(section, {})[key] = v]. *)
Definition section_set (section key : string) (v : value) (doc : document)
    : result document :=
  match doc !! section with
  | None => OK (<[section := VDict {[key := v]}]> doc)
  | Some (VDict m) => OK (<[section := VDict (<[key := v]> m)]> doc)
  | Some _ => Raise TypeError
  end.

(** [del doc[section][key]]. *)
Definition section_del (section key : string) (doc : document)
    : result document :=
  match doc !! section with
  | None => Raise KeyError
  | Some (VDict m) =>
      match m !! key with
      | Some _ => OK (<[section := VDict (delete key m)]> doc)
      | None => Raise KeyError
      end
  | Some _ => Raise TypeError
  end.

(** [if x in l: l.remove(x)]. *)
Fixpoint list_remove (x : string) (l : list string) : list string :=
  match l with
  | [] => []
  | y :: l' => if bool_decide (x = y) then l' else y :: list_remove x l'
  end.

(** [languages.add(v)], the set kept as a list without repetition. *)
Definition set_add (v : value) (s : list value) : list value :=
  if existsb (value_eqb v) s then s else s ++ [v].

Definition body (fun_ : option string) : option string :=
  match fun_ with
  | Some code => if nonempty code then Some code else None
  | None => None
  end.

(** The dictionary [funcs] built for one definition. *)
Definition build_funcs (view : DesignDefinition) : gmap string value :=
  let funcs : gmap string value := ∅ in
  let funcs :=
    match body (map_fun view) with
    | Some code => <["map" := VStr code]> funcs
    | None => funcs
    end in
  let funcs :=
    match body (reduce_fun view) with
    | Some code => <["reduce" := VStr code]> funcs
    | None => funcs
    end in
  if truthy (options view) then <["options" := options view]> funcs
  else funcs.

Record sync_state := {
  doc : document;
  missing_views : list string;
  missing_filters : list string;
  languages : list value
}.

(** The body of the inner loop, for one definition. *)
Definition sync_view (st : sync_state) (view : DesignDefinition)
    : result sync_state :=
  let funcs := build_funcs view in
  st' ←
    match body (filter_fun view) with
    | Some code =>
        d ← section_set "filters" (name view) (VStr code) (doc st);
        OK {| doc := d;
              missing_views := missing_views st;
              missing_filters := list_remove (name view) (missing_filters st);
              languages := languages st |}
    | None =>
        d ← section_set "views" (name view) (VDict funcs) (doc st);
        OK {| doc := d;
              missing_views := list_remove (name view) (missing_views st);
              missing_filters := missing_filters st;
              languages := languages st |}
    end;
  OK {| doc := doc st';
        missing_views := missing_views st';
        missing_filters := missing_filters st';
        languages := set_add (VStr (language view)) (languages st') |}.

Fixpoint sync_views (st : sync_state) (views : list DesignDefinition)
    : result sync_state :=
  match views with
  | [] => OK st
  | view :: rest => st' ← sync_view st view; sync_views st' rest
  end.

Fixpoint del_all (section : string) (names : list string) (d : document)
    : result document :=
  match names with
  | [] => OK d
  | n :: rest => d' ← section_del section n d; del_all section rest d'
  end.

(** Lines 128-130: the removal candidates of a fetched document. *)
Definition sync_start (d : document) : result sync_state :=
  mv ← section_keys "views" d;
  mf ← section_keys "filters" d;
  OK {| doc := d; missing_views := mv; missing_filters := mf;
        languages := [] |}.

(** Lines 151-158: removal of the remaining candidates, or else the
    stored language joining the set. *)
Definition sync_missing (remove_missing : bool) (st : sync_state)
    : result sync_state :=
  if remove_missing then
    d ← del_all "views" (missing_views st) (doc st);
    d' ← del_all "filters" (missing_filters st) d;
    OK {| doc := d'; missing_views := missing_views st;
          missing_filters := missing_filters st;
          languages := languages st |}
  else
    match missing_views st, missing_filters st, doc st !! "language" with
    | [], [], _ | _, _, None => OK st
    | _, _, Some lang =>
        if hashable lang then
          OK {| doc := doc st; missing_views := missing_views st;
                missing_filters := missing_filters st;
                languages := set_add lang (languages st) |}
        else Raise TypeError
    end.

(** Lines 160-163: the conflict check and the document's language. *)
Definition sync_language (st : sync_state) : result document :=
  match languages st with
  | [] => Raise IndexError
  | [lang] => OK (<["language" := lang]> (doc st))
  | _ => Raise (ValueError (languages st))
  end.

(** Lines 126-163 for one group: the merged document. *)
Definition sync_doc (remove_missing : bool) (d : document)
    (views : list DesignDefinition) : result document :=
  st ← sync_start d;
  st ← sync_views st views;
  st ← sync_missing remove_missing st;
  sync_language st.

Definition design_id (design : string) : string := "_design/" +:+ design.

(** The document a group starts from (lines 123-124). *)
Definition fetch (db : database) (design : string) : document :=
  let doc_id := design_id design in
  db_get db doc_id {[ "_id" := VStr doc_id ]}.

(** Lines 123-165 of one turn of the outer loop: the merged document, if
    it differs from the copy taken when it was fetched. *)
Definition merge_group (db : database) (remove_missing : bool)
    (g : string * list DesignDefinition) : result (option document) :=
  let orig_doc := fetch db g.1 in
  d ← sync_doc remove_missing orig_doc g.2;
  OK (if doc_eqb d orig_doc then None else Some d).

(** What a call of [sync_many] does to the outside: the documents handed
    to the callback, as they are when it is called, and the list handed
    to [db.update]. *)
Record outcome := {
  notified : list document;
  submitted : list document
}.

(** The parameter [callback]: [None], or a function that is called with
    the document object itself and so may change it or raise; it is
    given as the function from the document it is called with to the
    document as it leaves it, or to the exception it raises. *)
Definition callback_fun : Type := option (document → result document).

(** Lines 165-168: the callback is called with a document that has
    changed, and the document, as the callback has left it, is
    appended to [docs]. *)
Definition queue (callback : callback_fun) (changed : option document)
    : result outcome :=
  match changed with
  | Some d =>
      match callback with
      | Some f => d' ← f d; OK {| notified := [d]; submitted := [d'] |}
      | None => OK {| notified := []; submitted := [d] |}
      end
  | None => OK {| notified := []; submitted := [] |}
  end.

(** One turn of the outer loop. *)
Definition sync_group (db : database) (remove_missing : bool)
    (callback : callback_fun) (g : string * list DesignDefinition)
    : result outcome :=
  changed ← merge_group db remove_missing g;
  queue callback changed.

Fixpoint sync_groups (db : database) (remove_missing : bool)
    (callback : callback_fun) (groups : list (string * list DesignDefinition))
    : result outcome :=
  match groups with
  | [] => OK {| notified := []; submitted := [] |}
  | g :: rest =>
      o ← sync_group db remove_missing callback g;
      os ← sync_groups db remove_missing callback rest;
      OK {| notified := notified o ++ notified os;
            submitted := submitted o ++ submitted os |}
  end.

(** [DesignDefinition.sync_many]. *)
Definition sync_many (db : database) (views : list DesignDefinition)
    (remove_missing : bool) (callback : callback_fun) : result outcome :=
  sync_groups db remove_missing callback (groupby views).

(** The database after a call that returned. *)
Definition sync_many_db (db : database) (views : list DesignDefinition)
    (remove_missing : bool) (callback : callback_fun) : result database :=
  out ← sync_many db views remove_missing callback;
  OK (db_update db (submitted out)).

(** [DesignDefinition.sync]: [sync_many] with its defaults, no removal
    and no callback. *)
Definition sync (self : DesignDefinition) (db : database) : result outcome :=
  sync_many db [self] false None.

(** ** Notions used to state the properties *)

(** A line that is not made of blanks only. *)
Definition nonblank (l : string) : Prop := Str.all_chars Str.is_blank l = false.

(** What [dedent] makes of one line, given the margin. *)
Definition dedent_line (margin l : string) : string :=
  if Str.all_chars Str.is_blank l then ""
  else Str.drop (String.length margin) l.

(** The entries of a section of a document; none when it has no such
    section. *)
Definition section_of (section : string) (d : document) : gmap string value :=
  match d !! section with
  | Some (VDict m) => m
  | _ => ∅
  end.

(** The section is a dictionary, if the document has it. *)
Definition section_ok (section : string) (d : document) : Prop :=
  match d !! section with
  | None | Some (VDict _) => True
  | Some _ => False
  end.

(** The shape of a stored design document: its sections are dictionaries
    and its language can be a member of a set. *)
Definition well_formed (d : document) : Prop :=
  section_ok "views" d ∧ section_ok "filters" d ∧
  match d !! "language" with
  | Some lang => hashable lang = true
  | None => True
  end.

(** The section a definition is written to, and the entry written. *)
Definition entry_of (view : DesignDefinition) : string * value :=
  match body (filter_fun view) with
  | Some code => ("filters", VStr code)
  | None => ("views", VDict (build_funcs view))
  end.

(** The last definition of a group that writes entry [n] of [section]. *)
Definition last_entry (section n : string) (views : list DesignDefinition)
    : option value :=
  foldl (λ o view, if bool_decide ((entry_of view).1 = section ∧ name view = n)
                   then Some (entry_of view).2 else o) None views.

(** The languages of the definitions of a group, as the loop collects
    them. *)
Definition languages_of (views : list DesignDefinition) : list value :=
  foldl (λ s view, set_add (VStr (language view)) s) [] views.

(** [f] applied to the document of a loop state. *)
Definition with_doc (f : document → document) (st : sync_state) : sync_state :=
  {| doc := f (doc st);
     missing_views := missing_views st;
     missing_filters := missing_filters st;
     languages := languages st |}.

Definition result_map {A B} (f : A → B) (r : result A) : result B :=
  match r with
  | OK a => OK (f a)
  | Raise e => Raise e
  end.

(** A callback, if there is one, that returns and leaves the document as
    it is handed to it. *)
Definition observer (callback : callback_fun) : Prop :=
  ∀ f, callback = Some f → ∀ d, f d = OK d.

(** The documents the groups queue, in order, when no callback changes
    them. *)
Fixpoint changed_docs (db : database) (remove_missing : bool)
    (groups : list (string * list DesignDefinition))
    : result (list document) :=
  match groups with
  | [] => OK []
  | g :: rest =>
      d ← merge_group db remove_missing g;
      docs ← changed_docs db remove_missing rest;
      OK (option_list d ++ docs)
  end.





(** The removal candidates of a section. *)
Definition missing (section : string) (st : sync_state) : list string :=
  if bool_decide (section = "views") then missing_views st
  else missing_filters st.

(** The effect of the loop body when the section written to is a
    dictionary or absent. *)
Definition step (st : sync_state) (view : DesignDefinition) : sync_state :=
  let s := (entry_of view).1 in
  {| doc := <[s := VDict (<[name view := (entry_of view).2]>
                            (section_of s (doc st)))]> (doc st);
     missing_views :=
       if bool_decide (s = "views") then list_remove (name view) (missing_views st)
       else missing_views st;
     missing_filters :=
       if bool_decide (s = "views") then missing_filters st
       else list_remove (name view) (missing_filters st);
     languages := set_add (VStr (language view)) (languages st) |}.

(** What the loop maintains: both sections are dictionaries, and the
    removal candidates are distinct names of entries they have. *)
Definition candidates_ok (st : sync_state) : Prop :=
  ∀ s, s = "views" ∨ s = "filters" →
    section_ok s (doc st) ∧ NoDup (missing s st) ∧
    ∀ n, n ∈ missing s st → is_Some (section_of s (doc st) !! n).

(** The state the loop starts from when both sections are dictionaries
    or absent. *)
Definition start (d : document) : sync_state :=
  {| doc := d;
     missing_views := (map_to_list (section_of "views" d)).*1;
     missing_filters := (map_to_list (section_of "filters" d)).*1;
     languages := [] |}.

(** Lines 128-158 for one group: the state the conflict check sees. *)
Definition accumulate (remove_missing : bool) (d : document)
    (views : list DesignDefinition) : result sync_state :=
  st ← sync_start d;
  st ← sync_views st views;
  sync_missing remove_missing st.

(** A removal candidate remains after the loop: an entry of the fetched
    document that no definition of the group has written. *)
Definition candidate_remains (d : document) (views : list DesignDefinition)
    : Prop :=
  ∃ s n, (s = "views" ∨ s = "filters") ∧
         is_Some (section_of s d !! n) ∧ last_entry s n views = None.

(** Modelled from the spec: a bulk update that accepts every document,
    whatever its revision; the later of two documents with one id stays. *)
Definition db_update_unchecked (db : database) (docs : list document)
    : database :=
  foldl (λ db d, match d !! "_id" with
                 | Some (VStr doc_id) => <[doc_id := d]> db
                 | _ => db
                 end) db docs.

(** [DesignDefinition.get_doc]: [db.get] without a default, which gives
    [None] for a document the database does not have and the stored
    document, carrying its id as for [db_get], otherwise. *)
Definition get_doc (self : DesignDefinition) (db : database)
    : option document :=
  let doc_id := design_id (design self) in
  match db !! doc_id with
  | Some d => Some (<["_id" := VStr doc_id]> d)
  | None => None
  end.

(** The database after [self.sync(db)] has returned. *)
Definition sync_db (self : DesignDefinition) (db : database)
    : result database :=
  sync_many_db db [self] false None.

(** A character that is not a carriage return. *)
Definition not_CR (c : ascii) : bool := negb (bool_decide (c = Str.CR)).

(** * Properties *)

#[local] Arguments String.append : simpl nomatch.

(** ** Equality of values *)

Lemma value_size_list_elem x l :
  x ∈ l → value_size x < value_size (VList l).
Proof.
  simpl. induction 1; simpl; lia.
Qed.

Lemma value_size_dict_elem k x (m : gmap string value) :
  m !! k = Some x → value_size x < value_size (VDict m).
Proof.
  intros Hk. simpl. rewrite map_fold_foldr.
  apply elem_of_map_to_list in Hk. revert Hk.
  generalize (map_to_list m).
  induction l as [|[k' x'] l IH]; intros Hk; [by apply elem_of_nil in Hk|].
  apply elem_of_cons in Hk as [[= <- <-]|Hk]; simpl; [lia|].
  specialize (IH Hk). lia.
Qed.

Lemma list_eqb_spec {A} (eqb : A → A → bool) (l1 l2 : list A) :
  (∀ x y, x ∈ l1 → eqb x y = true ↔ x = y) →
  list_eqb eqb l1 l2 = true ↔ l1 = l2.
Proof.
  revert l2. induction l1 as [|x l1 IH]; intros [|y l2] Heq; simpl; try done.
  rewrite andb_true_iff, Heq by apply list_elem_of_here.
  rewrite IH by (intros ???; apply Heq; by apply list_elem_of_further).
  split; [by intros [-> ->]|by intros [= -> ->]].
Qed.

Lemma dict_eqb_spec {A} (eqb : A → A → bool) (m1 m2 : gmap string A) :
  (∀ k x y, m1 !! k = Some x → eqb x y = true ↔ x = y) →
  dict_eqb eqb m1 m2 = true ↔ m1 = m2.
Proof.
  intros Heq. unfold dict_eqb.
  rewrite andb_true_iff, bool_decide_eq_true, forallb_forall. split.
  - intros [Hdom Hall]. apply map_eq. intros k.
    destruct (m1 !! k) as [x|] eqn:Hk.
    + specialize (Hall (k, x)). simpl in Hall.
      destruct (m2 !! k) as [y|].
      * f_equal. eapply Heq; [done|]. apply Hall.
        by apply list_elem_of_In, elem_of_map_to_list.
      * discriminate Hall. by apply list_elem_of_In, elem_of_map_to_list.
    + symmetry. apply not_elem_of_dom. rewrite <- Hdom. by apply not_elem_of_dom.
  - intros <-. split; [done|]. intros [k x] Hin. simpl.
    apply list_elem_of_In, elem_of_map_to_list in Hin. rewrite Hin.
    by eapply Heq.
Qed.

Lemma value_eqb_fuel_spec n v1 v2 :
  value_size v1 ≤ n → value_eqb_fuel n v1 v2 = true ↔ v1 = v2.
Proof.
  revert v1 v2. induction n as [|n IH]; intros v1 v2 Hn.
  { destruct v1; simpl in Hn; lia. }
  destruct v1, v2; cbn [value_eqb_fuel];
    try (split; [discriminate|done]); try (split; done);
    try (rewrite bool_decide_eq_true; split; [by intros ->|by intros [= ->]]).
  - rewrite list_eqb_spec; [split; [by intros ->|by intros [= ->]]|].
    intros x y Hx. apply IH. apply value_size_list_elem in Hx. lia.
  - rewrite dict_eqb_spec; [split; [by intros ->|by intros [= ->]]|].
    intros k x y Hx. apply IH. apply value_size_dict_elem in Hx. lia.
Qed.

Lemma value_eqb_spec v1 v2 : value_eqb v1 v2 = true ↔ v1 = v2.
Proof. by apply value_eqb_fuel_spec. Qed.

Lemma value_eqb_refl v : value_eqb v v = true.
Proof. by apply value_eqb_spec. Qed.

Lemma doc_eqb_spec (d1 d2 : document) : doc_eqb d1 d2 = true ↔ d1 = d2.
Proof. apply dict_eqb_spec. intros. apply value_eqb_spec. Qed.

Lemma doc_eqb_refl (d : document) : doc_eqb d d = true.
Proof. by apply doc_eqb_spec. Qed.

#[global] Instance value_eq_dec : EqDecision value.
Proof.
  refine (λ v1 v2,
    match value_eqb v1 v2 as b return value_eqb v1 v2 = b → _ with
    | true => λ H, left _
    | false => λ H, right _
    end eq_refl).
  - by apply value_eqb_spec.
  - intros Heq. apply value_eqb_spec in Heq. congruence.
Defined.

Lemma rev_eqb_refl r : rev_eqb r r = true.
Proof. destruct r; simpl; [apply value_eqb_refl|done]. Qed.

(** ** The language set *)

Lemma existsb_value_eqb v s : existsb (value_eqb v) s = true ↔ v ∈ s.
Proof.
  rewrite existsb_exists. split.
  - intros (x & Hx & Heq). apply value_eqb_spec in Heq as ->.
    by apply list_elem_of_In.
  - intros Hv. exists v. split; [by apply list_elem_of_In|apply value_eqb_refl].
Qed.

Lemma set_add_elem v s x : x ∈ set_add v s ↔ x = v ∨ x ∈ s.
Proof.
  unfold set_add. destruct (existsb _ _) eqn:E.
  - apply existsb_value_eqb in E. split; [auto|]. by intros [->|].
  - rewrite elem_of_app, list_elem_of_singleton. tauto.
Qed.

Lemma set_add_in v s : v ∈ s → set_add v s = s.
Proof.
  intros Hv. unfold set_add. apply existsb_value_eqb in Hv. by rewrite Hv.
Qed.

Lemma set_add_notin v s : v ∉ s → set_add v s = s ++ [v].
Proof.
  intros Hv. unfold set_add. destruct (existsb _ _) eqn:E; [|done].
  by apply existsb_value_eqb in E.
Qed.

Lemma set_add_NoDup v s : NoDup s → NoDup (set_add v s).
Proof.
  intros Hs. destruct (decide (v ∈ s)) as [Hv|Hv].
  - by rewrite set_add_in.
  - rewrite set_add_notin by done. apply NoDup_app. split_and!; [done| |].
    + intros x Hx ->%list_elem_of_singleton. done.
    + apply NoDup_singleton.
Qed.

(** A computation returns a value that passes a test when the test,
    run on its outcome, says so. *)
Lemma result_check {A} (r : result A) (p : A → bool) :
  match r with OK a => p a | Raise _ => false end = true →
  ∃ a, r = OK a ∧ p a = true.
Proof. destruct r; [eauto|done]. Qed.

(** ** Strings *)

Lemma append_nil_r s : s +:+ "" = s.
Proof. induction s; simpl; by f_equal. Qed.

Lemma append_assoc s1 s2 s3 : (s1 +:+ s2) +:+ s3 = s1 +:+ (s2 +:+ s3).
Proof. induction s1; simpl; by f_equal. Qed.

Lemma all_chars_app p s1 s2 :
  Str.all_chars p (s1 +:+ s2) = Str.all_chars p s1 && Str.all_chars p s2.
Proof. induction s1 as [|c s1 IH]; simpl; [done|]. by rewrite IH, andb_assoc. Qed.

Lemma startswith_spec p s : Str.startswith p s = true ↔ ∃ t, s = p +:+ t.
Proof.
  revert s. induction p as [|a p IH]; intros s; simpl.
  - split; [by exists s|done].
  - destruct s as [|b s]; [split; [done|by intros [? [=]]]|].
    rewrite andb_true_iff, bool_decide_eq_true, IH. split.
    + intros [-> [t ->]]. by exists t.
    + intros [t [= -> ->]]. eauto.
Qed.

Lemma startswith_refl s : Str.startswith s s = true.
Proof. apply startswith_spec. exists "". by rewrite append_nil_r. Qed.

Lemma startswith_trans a b c :
  Str.startswith a b = true → Str.startswith b c = true →
  Str.startswith a c = true.
Proof.
  rewrite !startswith_spec. intros [t ->] [u ->]. exists (t +:+ u).
  apply append_assoc.
Qed.

Lemma drop_app p t : Str.drop (String.length p) (p +:+ t) = t.
Proof. induction p; simpl; done. Qed.



Lemma isspace_not_decorator l : Str.isspace l = true → is_decorator l = false.
Proof.
  unfold Str.isspace, is_decorator. intros [_ Hall]%andb_true_iff.
  induction l as [|c l IH]; simpl in *; [done|].
  apply andb_true_iff in Hall as [-> Hall]. auto.
Qed.

Lemma strip_loop_false lines : strip_loop false lines = lines.
Proof. induction lines as [|l lines IH]; simpl; by f_equal. Qed.

Lemma strip_loop_spec pre rest :
  Forall (λ l, Str.isspace l = true ∨ is_decorator l = true) pre →
  match rest with
  | [] => True
  | l :: _ => Str.isspace l = false ∧ is_decorator l = false
  end →
  strip_loop true (pre ++ rest) =
    List.filter (λ l, negb (is_decorator l)) pre ++ rest.
Proof.
  intros Hpre Hrest.
  induction Hpre as [|l pre [Hl|Hl] _ IH]; cbn [app strip_loop List.filter].
  - destruct rest as [|l rest]; [done|]. destruct Hrest as [Hs Hd].
    cbn [strip_loop]. rewrite Hs, Hd. simpl. by rewrite strip_loop_false.
  - rewrite Hl, (isspace_not_decorator l Hl). simpl. by f_equal.
  - rewrite Hl. simpl. destruct (Str.isspace l) eqn:Hs; [|done].
    by rewrite (isspace_not_decorator l Hs) in Hl.
Qed.

(** *** The margin of [dedent] *)

Lemma indent_of_prefix l : Str.startswith (Str.indent_of l) l = true.
Proof.
  induction l as [|c l IH]; simpl; [done|].
  destruct (Str.is_blank c); simpl; [|done].
  by rewrite bool_decide_eq_true_2.
Qed.

Lemma indent_of_all_blank l :
  l = Str.indent_of l ↔ Str.all_chars Str.is_blank l = true.
Proof.
  induction l as [|c l IH]; simpl; [done|].
  destruct (Str.is_blank c); simpl; [|split; done].
  rewrite <- IH. split; [by intros [= <-]|by intros <-].
Qed.

Lemma common_prefix_l a b : Str.startswith (Str.common_prefix a b) a = true.
Proof.
  revert b. induction a as [|x a IH]; intros [|y b]; simpl; try done.
  case_bool_decide; simpl; [|done]. by rewrite bool_decide_eq_true_2, IH.
Qed.

Lemma common_prefix_r a b : Str.startswith (Str.common_prefix a b) b = true.
Proof.
  revert b. induction a as [|x a IH]; intros [|y b]; simpl; try done.
  case_bool_decide; simpl; [|done]. subst. by rewrite bool_decide_eq_true_2, IH.
Qed.

Lemma common_prefix_greatest p a b :
  Str.startswith p a = true → Str.startswith p b = true →
  Str.startswith p (Str.common_prefix a b) = true.
Proof.
  revert a b. induction p as [|c p IH]; intros [|x a] [|y b]; simpl; try done.
  rewrite !andb_true_iff, !bool_decide_eq_true. intros [-> Ha] [-> Hb].
  rewrite bool_decide_eq_true_2 by done. simpl.
  rewrite bool_decide_eq_true_2 by done. simpl. auto.
Qed.

Lemma margin_step_blank_to_empty m l :
  Str.margin_step m (Str.blank_to_empty l) =
    if Str.all_chars Str.is_blank l then m
    else Some (match m with
               | None => Str.indent_of l
               | Some m => Str.common_prefix m (Str.indent_of l)
               end).
Proof.
  unfold Str.margin_step, Str.blank_to_empty.
  destruct (Str.all_chars Str.is_blank l) eqn:Hl; simpl; [done|].
  rewrite bool_decide_eq_false_2; [by destruct m|].
  rewrite indent_of_all_blank. congruence.
Qed.

Lemma margin_fold_lower acc lines m :
  foldl Str.margin_step acc (map Str.blank_to_empty lines) = Some m →
  (∀ a, acc = Some a → Str.startswith m a = true) ∧
  (∀ l, l ∈ lines → nonblank l → Str.startswith m (Str.indent_of l) = true).
Proof.
  revert acc. induction lines as [|l lines IH]; intros acc; simpl.
  - intros ->. split; [intros ? [= <-]; apply startswith_refl|].
    by intros ? ?%elem_of_nil.
  - rewrite margin_step_blank_to_empty. intros Hm.
    destruct (IH _ Hm) as [Hacc Hall]. unfold nonblank.
    destruct (Str.all_chars Str.is_blank l) eqn:Hl.
    + split; [done|]. intros l' [->|?]%elem_of_cons ?; [congruence|auto].
    + split.
      * intros a ->. eapply startswith_trans; [by apply Hacc|].
        apply common_prefix_l.
      * intros l' [->|?]%elem_of_cons ?; [|by auto].
        eapply startswith_trans; [by apply Hacc|].
        destruct acc; [apply common_prefix_r|apply startswith_refl].
Qed.

Lemma margin_fold_greatest p acc lines m :
  foldl Str.margin_step acc (map Str.blank_to_empty lines) = Some m →
  (∀ a, acc = Some a → Str.startswith p a = true) →
  (∀ l, l ∈ lines → nonblank l → Str.startswith p (Str.indent_of l) = true) →
  Str.startswith p m = true.
Proof.
  revert acc. induction lines as [|l lines IH]; intros acc; simpl.
  - intros -> Hacc _. by apply Hacc.
  - rewrite margin_step_blank_to_empty. intros Hm Hacc Hall.
    eapply IH; [done| |].
    + destruct (Str.all_chars Str.is_blank l) eqn:Hl; [done|].
      intros a [= <-]. destruct acc.
      * apply common_prefix_greatest; [by apply Hacc|].
        apply Hall; [apply list_elem_of_here|done].
      * apply Hall; [apply list_elem_of_here|done].
    + intros l' Hl'. apply Hall. by apply list_elem_of_further.
Qed.

Lemma margin_fold_some a lines :
  foldl Str.margin_step (Some a) (map Str.blank_to_empty lines) ≠ None.
Proof.
  revert a. induction lines as [|l lines IH]; intros a; simpl; [done|].
  rewrite margin_step_blank_to_empty.
  destruct (Str.all_chars Str.is_blank l); apply IH.
Qed.

Lemma margin_fold_none acc lines :
  foldl Str.margin_step acc (map Str.blank_to_empty lines) = None →
  ∀ l, l ∈ lines → ¬ nonblank l.
Proof.
  revert acc. induction lines as [|l lines IH]; intros acc; simpl.
  - by intros _ ? ?%elem_of_nil.
  - rewrite margin_step_blank_to_empty. intros Hm l' [->|Hl']%elem_of_cons.
    + unfold nonblank. destruct (Str.all_chars Str.is_blank l); [congruence|].
      by apply margin_fold_some in Hm.
    + by eapply IH.
Qed.

Lemma cut_margin_line m l :
  (nonblank l → Str.startswith m (Str.indent_of l) = true) →
  (m = "" ∨ Str.cut_margin m (Str.blank_to_empty l) = dedent_line m l) ∧
  (m = "" → Str.blank_to_empty l = dedent_line m l).
Proof.
  intros Hm. unfold Str.cut_margin, Str.blank_to_empty, dedent_line, nonblank in *.
  destruct (Str.all_chars Str.is_blank l) eqn:Hl.
  - split; [|done]. destruct m; [by left|by right].
  - split; [|by intros ->]. right.
    rewrite (startswith_trans m (Str.indent_of l) l); auto using indent_of_prefix.
Qed.

Lemma dedent_spec text :
  ∃ margin,
    Str.dedent text =
      Str.join Str.NL (map (dedent_line margin) (Str.split_lf text)) ∧
    (∀ l, l ∈ Str.split_lf text → nonblank l →
          Str.startswith margin (Str.indent_of l) = true) ∧
    (∀ p, (∀ l, l ∈ Str.split_lf text → nonblank l →
                Str.startswith p (Str.indent_of l) = true) →
          (∃ l, l ∈ Str.split_lf text ∧ nonblank l) →
          Str.startswith p margin = true).
Proof.
  unfold Str.dedent, Str.margin_of.
  destruct (foldl _ _ _) as [m|] eqn:Hm.
  - exists m. destruct (margin_fold_lower _ _ _ Hm) as [_ Hlow].
    split_and!; [|done|].
    + case_bool_decide as Hem; f_equal.
      * apply map_ext_in. intros l Hl%list_elem_of_In.
        by apply cut_margin_line; auto.
      * rewrite map_map. apply map_ext_in. intros l Hl%list_elem_of_In.
        destruct (cut_margin_line m l) as [[?|?] _]; auto. done.
    + intros p Hp _. by eapply margin_fold_greatest.
  - exists "". pose proof (margin_fold_none _ _ Hm) as Hnone. split_and!.
    + done.
    + intros l Hl Hnb. by destruct (Hnone l Hl).
    + intros p _ (l & Hl & Hnb). by destruct (Hnone l Hl).
Qed.

(** ** Construction of definitions *)

Lemma init_raises_iff design name m r lang opts f dflts :
  DesignDefinition_init design name m r lang opts f dflts
    = Raise AssertionError ↔ m = SrcNone ∧ f = SrcNone.
Proof.
  unfold DesignDefinition_init.
  destruct m, f; simpl; (split; [|intros [??]]); by try congruence.
Qed.

(** C7. Construction raises the validation error exactly when both the
    map body and the filter body are [None]; it succeeds exactly when at
    least one of the two is supplied. *)
Theorem init_requires_map_or_filter design name m r lang opts f dflts :
  (DesignDefinition_init design name m r lang opts f dflts
     = Raise AssertionError ↔ m = SrcNone ∧ f = SrcNone) ∧
  (succeeds (DesignDefinition_init design name m r lang opts f dflts)
     ↔ m ≠ SrcNone ∨ f ≠ SrcNone).
Proof.
  split; [apply init_raises_iff|].
  unfold DesignDefinition_init, succeeds.
  destruct m, f; simpl; split;
    try (intros [?|?]; congruence); try (intros [??]; congruence);
    try (intros _; eauto); try (left; congruence); try (right; congruence).
Qed.




(** ** Invocation of a view *)

(** C6. A view is queried under the path [<design>/<name>]; every
    option of the call is passed on with the value of the call, every
    other option has its default, and the wrapper of the definition is
    passed under [wrapper] unless the call (or the defaults) has that
    key. *)
Theorem call_merges_options (self : ViewDefinition)
    (opts : gmap string value) :
  (ViewDefinition_call self opts).1 = design self +:+ "/" +:+ name self ∧
  (∀ k v, opts !! k = Some v →
          (ViewDefinition_call self opts).2 !! k = Some v) ∧
  (∀ k, k ≠ "wrapper" → opts !! k = None →
        (ViewDefinition_call self opts).2 !! k = defaults self !! k) ∧
  (ViewDefinition_call self opts).2 !! "wrapper" =
    match opts !! "wrapper" with
    | Some w => Some w
    | None => match defaults self !! "wrapper" with
              | Some w => Some w
              | None => Some (wrapper self)
              end
    end.
Proof.
  unfold ViewDefinition_call. cbn [fst snd]. split_and!.
  - done.
  - intros k v Hk. case_bool_decide as Hw.
    + by apply lookup_union_Some_l.
    + destruct (decide (k = "wrapper")) as [->|Hne].
      * exfalso. apply Hw, elem_of_dom. exists v. by apply lookup_union_Some_l.
      * rewrite lookup_insert_ne by done. by apply lookup_union_Some_l.
  - intros k Hne Hk. case_bool_decide.
    + by rewrite lookup_union_r.
    + rewrite lookup_insert_ne by done. by rewrite lookup_union_r.
  - case_bool_decide as Hw.
    + apply elem_of_dom in Hw as [w Hw]. rewrite Hw.
      apply lookup_union_Some_raw in Hw as [Hw|[Hn Hw]]; [by rewrite Hw|].
      by rewrite Hn, Hw.
    + rewrite lookup_insert_eq.
      apply not_elem_of_dom, lookup_union_None in Hw as [-> ->]. done.
Qed.

(** Defaults [{limit: 10}] and a call with [limit=5] query with 5. *)
Lemma call_merges_options_witness :
  let self := {| base := {| design := "tests"; name := "all";
                            map_fun := Some "function(doc){}";
                            reduce_fun := None; filter_fun := None;
                            language := "javascript"; options := VNone;
                            defaults := {[ "limit" := VNum 10 ]} |};
                 wrapper := VFunc "Row" |} in
  (ViewDefinition_call self {[ "limit" := VNum 5 ]}).2 !! "limit"
    = Some (VNum 5).
Proof.
  intros self.
  apply (proj1 (proj2 (call_merges_options self {[ "limit" := VNum 5 ]}))).
  reflexivity.
Defined.

(** ** Sections of a document *)

Lemma section_sum s : s = "views" ∨ s = "filters" → s ≠ "language".
Proof. by intros [->| ->]. Qed.

Lemma section_set_ok s n v d :
  section_ok s d →
  section_set s n v d = OK (<[s := VDict (<[n := v]> (section_of s d))]> d).
Proof.
  unfold section_ok, section_set, section_of.
  by destruct (d !! s) as [[]|].
Qed.

Lemma section_set_inv s n v d d' :
  section_set s n v d = OK d' → section_ok s d.
Proof.
  unfold section_ok, section_set. by destruct (d !! s) as [[]|].
Qed.

Lemma section_keys_ok s d :
  section_ok s d → section_keys s d = OK (map_to_list (section_of s d)).*1.
Proof.
  unfold section_ok, section_keys, section_of.
  by destruct (d !! s) as [[]|].
Qed.

Lemma section_keys_inv s d l : section_keys s d = OK l → section_ok s d.
Proof.
  unfold section_ok, section_keys. by destruct (d !! s) as [[]|].
Qed.

Lemma section_del_ok s n d :
  section_ok s d → is_Some (section_of s d !! n) →
  section_del s n d = OK (<[s := VDict (delete n (section_of s d))]> d).
Proof.
  unfold section_ok, section_del, section_of.
  destruct (d !! s) as [[]|]; try done.
  - by intros _ [x ->].
  - intros _ [x Hx]. by rewrite lookup_empty in Hx.
Qed.

Lemma section_of_insert_eq s m d : section_of s (<[s := VDict m]> d) = m.
Proof. unfold section_of. by rewrite lookup_insert_eq. Qed.

Lemma section_of_insert_ne s k x d :
  k ≠ s → section_of s (<[k := x]> d) = section_of s d.
Proof. intros. unfold section_of. by rewrite lookup_insert_ne. Qed.

Lemma section_ok_insert_eq s m d : section_ok s (<[s := VDict m]> d).
Proof. unfold section_ok. by rewrite lookup_insert_eq. Qed.

Lemma section_ok_insert_ne s k x d :
  k ≠ s → section_ok s (<[k := x]> d) ↔ section_ok s d.
Proof. intros. unfold section_ok. by rewrite lookup_insert_ne. Qed.

Lemma section_ok_lookup s d :
  section_ok s d → is_Some (d !! s) → d !! s = Some (VDict (section_of s d)).
Proof.
  unfold section_ok, section_of.
  destruct (d !! s) as [[]|]; try done; by intros _ [? [=]].
Qed.

(** Two documents with the same sections and the same other fields are
    equal. *)
Lemma document_eq (d1 d2 : document) :
  (∀ s, s = "views" ∨ s = "filters" →
        section_ok s d1 ∧ section_ok s d2 ∧
        (is_Some (d1 !! s) ↔ is_Some (d2 !! s)) ∧
        section_of s d1 = section_of s d2) →
  (∀ k, k ≠ "views" → k ≠ "filters" → d1 !! k = d2 !! k) →
  d1 = d2.
Proof.
  intros Hsec Hother. apply map_eq. intros k.
  assert (k = "views" ∨ k = "filters" → d1 !! k = d2 !! k) as Hk.
  { intros Hs. destruct (Hsec k Hs) as (Ho1 & Ho2 & Hp & Hm).
    pose proof (section_ok_lookup k d1 Ho1) as H1.
    pose proof (section_ok_lookup k d2 Ho2) as H2.
    rewrite Hm in H1.
    destruct (d1 !! k) as [v1|], (d2 !! k) as [v2|]; [| | |done].
    - rewrite H1, H2; eauto.
    - by destruct (proj1 Hp) as [? [=]].
    - by destruct (proj2 Hp) as [? [=]]. }
  destruct (decide (k = "views")); [by auto|].
  destruct (decide (k = "filters")); [by auto|]. by apply Hother.
Qed.

(** ** Removal candidates *)

Lemma list_remove_elem x l n :
  NoDup l → n ∈ list_remove x l ↔ n ∈ l ∧ n ≠ x.
Proof.
  induction 1 as [|y l Hy Hl IH]; simpl.
  - rewrite elem_of_nil. tauto.
  - case_bool_decide as Hxy.
    + subst y. rewrite elem_of_cons. split; [|by intros [[->|?] ?]].
      intros Hn. split; [by right|]. by intros ->.
    + rewrite !elem_of_cons, IH. split; [|tauto].
      intros [->|[??]]; [|tauto]. split; [by left|congruence].
Qed.

Lemma list_remove_NoDup x l : NoDup l → NoDup (list_remove x l).
Proof.
  induction 1 as [|y l Hy Hl IH]; simpl; [constructor|].
  case_bool_decide; [done|]. constructor; [|done].
  rewrite list_remove_elem by done. tauto.
Qed.

(** ** The loop over the definitions of a group *)

Lemma entry_of_section view :
  (entry_of view).1 = "views" ∨ (entry_of view).1 = "filters".
Proof. unfold entry_of. destruct (body _); auto. Qed.

Lemma sync_view_ok st view :
  section_ok (entry_of view).1 (doc st) → sync_view st view = OK (step st view).
Proof.
  unfold sync_view, step, entry_of. destruct (body (filter_fun view)) as [code|];
    cbn [fst snd]; intros Hok; rewrite section_set_ok by done; done.
Qed.

Lemma sync_view_inv st view st' :
  sync_view st view = OK st' →
  section_ok (entry_of view).1 (doc st) ∧ st' = step st view.
Proof.
  intros Hst. assert (section_ok (entry_of view).1 (doc st)) as Hok.
  { unfold sync_view, entry_of in *.
    destruct (body (filter_fun view)); cbn [fst];
      match type of Hst with
      | context [section_set ?s ?n ?v ?d] =>
          destruct (section_set s n v d) eqn:E; [|done];
          by eapply section_set_inv
      end. }
  rewrite sync_view_ok in Hst by done. by injection Hst as <-.
Qed.

Lemma missing_step s st view :
  s = "views" ∨ s = "filters" →
  missing s (step st view) =
    if bool_decide ((entry_of view).1 = s)
    then list_remove (name view) (missing s st) else missing s st.
Proof.
  unfold missing, step. cbn [missing_views missing_filters].
  destruct (entry_of_section view) as [-> | ->]; intros [-> | ->]; done.
Qed.

Lemma section_of_step s st view :
  section_of s (doc (step st view)) =
    if bool_decide ((entry_of view).1 = s)
    then <[name view := (entry_of view).2]> (section_of s (doc st))
    else section_of s (doc st).
Proof.
  unfold step. cbn [doc]. case_bool_decide as Hs.
  - subst s. apply section_of_insert_eq.
  - by apply section_of_insert_ne.
Qed.

Lemma section_ok_step s st view :
  section_ok s (doc st) → section_ok s (doc (step st view)).
Proof.
  unfold step. cbn [doc]. intros Hok.
  destruct (decide ((entry_of view).1 = s)) as [<-|Hne].
  - apply section_ok_insert_eq.
  - by apply section_ok_insert_ne.
Qed.

Lemma doc_step_other k st view :
  k ≠ (entry_of view).1 → doc (step st view) !! k = doc st !! k.
Proof. intros. unfold step. cbn [doc]. by rewrite lookup_insert_ne. Qed.

Lemma present_step s st view :
  is_Some (doc (step st view) !! s) ↔
    is_Some (doc st !! s) ∨ (entry_of view).1 = s.
Proof.
  unfold step. cbn [doc]. destruct (decide ((entry_of view).1 = s)) as [<-|Hne].
  - rewrite lookup_insert_eq. split; [auto|]. by eexists.
  - rewrite lookup_insert_ne by done. tauto.
Qed.

Lemma candidates_ok_step st view :
  candidates_ok st → candidates_ok (step st view).
Proof.
  intros Hst s Hs. destruct (Hst s Hs) as (Hok & Hnd & Hin).
  split_and!.
  - by apply section_ok_step.
  - rewrite missing_step by done. case_bool_decide; [|done].
    by apply list_remove_NoDup.
  - intros n. rewrite missing_step, section_of_step by done.
    case_bool_decide; [|by auto].
    rewrite list_remove_elem by done. intros [Hn Hne].
    rewrite lookup_insert_ne by done. auto.
Qed.

Lemma sync_views_ok st views :
  candidates_ok st → sync_views st views = OK (foldl step st views).
Proof.
  revert st. induction views as [|view views IH]; intros st Hst; [done|].
  cbn [sync_views foldl]. rewrite sync_view_ok.
  - apply IH. by apply candidates_ok_step.
  - apply Hst, entry_of_section.
Qed.

Lemma candidates_ok_run st views :
  candidates_ok st → candidates_ok (foldl step st views).
Proof.
  revert st. induction views as [|view views IH]; intros st Hst; [done|].
  apply IH. by apply candidates_ok_step.
Qed.

Lemma last_entry_snoc s n views view :
  last_entry s n (views ++ [view]) =
    if bool_decide ((entry_of view).1 = s ∧ name view = n)
    then Some (entry_of view).2 else last_entry s n views.
Proof. unfold last_entry. by rewrite foldl_snoc. Qed.

Lemma section_of_run s n st views :
  section_of s (doc (foldl step st views)) !! n =
    match last_entry s n views with
    | Some v => Some v
    | None => section_of s (doc st) !! n
    end.
Proof.
  induction views as [|view views IH] using rev_ind; [done|].
  rewrite foldl_snoc, last_entry_snoc, section_of_step.
  case_bool_decide as Hs.
  - destruct (decide (name view = n)) as [<-|Hn].
    + rewrite lookup_insert_eq. by rewrite bool_decide_eq_true_2.
    + rewrite lookup_insert_ne by done.
      rewrite bool_decide_eq_false_2 by tauto. done.
  - rewrite bool_decide_eq_false_2 by tauto. done.
Qed.

Lemma missing_run s n st views :
  s = "views" ∨ s = "filters" → candidates_ok st →
  n ∈ missing s (foldl step st views) ↔
    n ∈ missing s st ∧ last_entry s n views = None.
Proof.
  intros Hs Hst. induction views as [|view views IH] using rev_ind.
  { unfold last_entry. simpl. tauto. }
  rewrite foldl_snoc, last_entry_snoc, missing_step by done.
  destruct (candidates_ok_run st views Hst s Hs) as (_ & Hnd & _).
  case_bool_decide as Hsec.
  - rewrite list_remove_elem, IH by done.
    case_bool_decide as Hn; [|intuition congruence].
    destruct Hn as [_ ->]. split; [tauto|]. by intros [_ [=]].
  - rewrite IH. rewrite bool_decide_eq_false_2 by tauto. done.
Qed.

Lemma present_run s st views :
  is_Some (doc (foldl step st views) !! s) ↔
    is_Some (doc st !! s) ∨ ∃ n, is_Some (last_entry s n views).
Proof.
  induction views as [|view views IH] using rev_ind.
  { simpl. split; [auto|]. intros [?|[n [? [=]]]]. done. }
  rewrite foldl_snoc, present_step, IH. split.
  - intros [[?|[n Hn]]|Hs]; [by left|right..].
    + exists n. rewrite last_entry_snoc. by case_bool_decide.
    + exists (name view). rewrite last_entry_snoc.
      by rewrite bool_decide_eq_true_2.
  - intros [?|[n Hn]]; [by auto|]. rewrite last_entry_snoc in Hn.
    case_bool_decide as Hs; [by right; apply Hs|]. left. right. eauto.
Qed.

Lemma languages_run st views :
  languages (foldl step st views) =
    foldl (λ s view, set_add (VStr (language view)) s) (languages st) views.
Proof.
  revert st. induction views as [|view views IH]; intros st; [done|].
  cbn [foldl]. by rewrite IH.
Qed.

Lemma doc_run_other k st views :
  k ≠ "views" → k ≠ "filters" → doc (foldl step st views) !! k = doc st !! k.
Proof.
  intros Hv Hf. revert st.
  induction views as [|view views IH]; intros st; [done|].
  cbn [foldl]. rewrite IH. apply doc_step_other.
  destruct (entry_of_section view) as [-> | ->]; done.
Qed.

Lemma sync_views_inv st views st' :
  sync_views st views = OK st' → st' = foldl step st views.
Proof.
  revert st. induction views as [|view views IH]; intros st.
  - by intros [= <-].
  - cbn [sync_views foldl]. destruct (sync_view st view) as [st1|] eqn:E; [|done].
    apply sync_view_inv in E as [_ ->]. apply IH.
Qed.

(** ** The start and the end of a group *)

Lemma sync_start_ok d :
  section_ok "views" d → section_ok "filters" d → sync_start d = OK (start d).
Proof.
  intros Hv Hf. unfold sync_start. by rewrite !section_keys_ok.
Qed.

Lemma sync_start_inv d st :
  sync_start d = OK st →
  section_ok "views" d ∧ section_ok "filters" d ∧ st = start d.
Proof.
  intros Hst. assert (section_ok "views" d ∧ section_ok "filters" d) as [Hv Hf].
  { unfold sync_start in Hst.
    destruct (section_keys "views" d) as [mv|] eqn:Ev; [|done].
    destruct (section_keys "filters" d) as [mf|] eqn:Ef; [|done].
    eauto using section_keys_inv. }
  rewrite sync_start_ok in Hst by done. by injection Hst as <-.
Qed.

Lemma missing_start s d n :
  s = "views" ∨ s = "filters" →
  n ∈ missing s (start d) ↔ is_Some (section_of s d !! n).
Proof.
  assert (∀ m : gmap string value, n ∈ (map_to_list m).*1 ↔ is_Some (m !! n))
    as Hm.
  { intros m. rewrite list_elem_of_fmap. split.
    - intros ([k x] & -> & Hx). apply elem_of_map_to_list in Hx. by eexists.
    - intros [x Hx]. exists (n, x). by rewrite elem_of_map_to_list. }
  intros [-> | ->]; apply Hm.
Qed.

Lemma candidates_ok_start d :
  section_ok "views" d → section_ok "filters" d → candidates_ok (start d).
Proof.
  intros Hv Hf s Hs. split_and!.
  - by destruct Hs as [-> | ->].
  - destruct Hs as [-> | ->]; apply NoDup_fst_map_to_list.
  - intros n. by rewrite missing_start.
Qed.

Lemma section_of_ext s (d1 d2 : document) :
  d1 !! s = d2 !! s → section_of s d1 = section_of s d2.
Proof. unfold section_of. by intros ->. Qed.

Lemma section_ok_ext s (d1 d2 : document) :
  d1 !! s = d2 !! s → section_ok s d1 → section_ok s d2.
Proof. unfold section_ok. by intros ->. Qed.

Lemma del_all_ok s names d :
  section_ok s d → NoDup names →
  (∀ n, n ∈ names → is_Some (section_of s d !! n)) →
  ∃ d', del_all s names d = OK d' ∧
        (∀ k, k ≠ s → d' !! k = d !! k) ∧
        section_ok s d' ∧
        (is_Some (d' !! s) ↔ is_Some (d !! s)) ∧
        ∀ n, section_of s d' !! n =
               if bool_decide (n ∈ names) then None else section_of s d !! n.
Proof.
  intros Hok Hnd. revert d Hok.
  induction Hnd as [|x names Hx Hnd IH]; intros d Hok Hin.
  { exists d. split_and!; try done. }
  cbn [del_all]. rewrite section_del_ok; [|done|apply Hin; by left].
  set (d1 := <[s:=VDict (delete x (section_of s d))]> d).
  destruct (IH d1) as (d' & Hdel & Hother & Hok' & Hpres & Hsec).
  { apply section_ok_insert_eq. }
  { intros n Hn. unfold d1. rewrite section_of_insert_eq.
    rewrite lookup_delete_ne by (by intros ->). apply Hin. by right. }
  exists d'. split_and!; [done| |done| |].
  - intros k Hk. rewrite Hother by done. unfold d1.
    by rewrite lookup_insert_ne.
  - rewrite Hpres. unfold d1. rewrite lookup_insert_eq.
    split; [|by eexists]. intros _.
    destruct (Hin x) as [v Hv]; [by left|]. unfold section_of in Hv.
    destruct (d !! s) as [[]|]; try done; by rewrite lookup_empty in Hv.
  - intros n. rewrite Hsec. unfold d1. rewrite section_of_insert_eq.
    destruct (decide (n = x)) as [->|Hne].
    + rewrite (bool_decide_eq_true_2 (x ∈ x :: names)) by (by left).
      case_bool_decide; [done|]. apply lookup_delete_eq.
    + rewrite lookup_delete_ne by done.
      rewrite (bool_decide_ext (n ∈ x :: names) (n ∈ names)); [done|].
      rewrite elem_of_cons. tauto.
Qed.

Lemma sync_missing_true_ok st :
  candidates_ok st →
  ∃ st', sync_missing true st = OK st' ∧
         languages st' = languages st ∧
         (∀ k, k ≠ "views" → k ≠ "filters" → doc st' !! k = doc st !! k) ∧
         ∀ s, s = "views" ∨ s = "filters" →
              section_ok s (doc st') ∧
              (is_Some (doc st' !! s) ↔ is_Some (doc st !! s)) ∧
              ∀ n, section_of s (doc st') !! n =
                     if bool_decide (n ∈ missing s st) then None
                     else section_of s (doc st) !! n.
Proof.
  intros Hst.
  destruct (Hst "views") as (Hokv & Hndv & Hinv); [by left|].
  destruct (Hst "filters") as (Hokf & Hndf & Hinf); [by right|].
  destruct (del_all_ok "views" (missing_views st) (doc st))
    as (d1 & Hd1 & Ho1 & Hok1 & Hp1 & Hs1); [done..|].
  assert (d1 !! "filters" = doc st !! "filters") as Hf1 by (by apply Ho1).
  destruct (del_all_ok "filters" (missing_filters st) d1)
    as (d2 & Hd2 & Ho2 & Hok2 & Hp2 & Hs2); [|done|..].
  { by apply (section_ok_ext _ (doc st)). }
  { intros n Hn. rewrite (section_of_ext _ d1 (doc st)) by done. by apply Hinf. }
  assert (d2 !! "views" = d1 !! "views") as Hv2 by (by apply Ho2).
  eexists. unfold sync_missing. rewrite Hd1. cbn [mbind result_bind].
  rewrite Hd2. cbn [mbind result_bind]. split; [done|]. cbn [doc languages].
  split_and!; [done| |].
  - intros k Hv Hf. by rewrite Ho2, Ho1.
  - intros s [-> | ->]; split_and!.
    + by apply (section_ok_ext _ d1).
    + by rewrite Hv2.
    + intros n. by rewrite (section_of_ext _ d2 d1), Hs1.
    + done.
    + by rewrite Hp2, Hf1.
    + intros n. by rewrite Hs2, (section_of_ext _ d1 (doc st)).
Qed.

Lemma sync_missing_false_spec st :
  sync_missing false st =
    match doc st !! "language" with
    | Some lang =>
        if bool_decide (missing_views st = [] ∧ missing_filters st = [])
        then OK st
        else if hashable lang
             then OK {| doc := doc st; missing_views := missing_views st;
                        missing_filters := missing_filters st;
                        languages := set_add lang (languages st) |}
             else Raise TypeError
    | None => OK st
    end.
Proof.
  unfold sync_missing.
  destruct (missing_views st), (missing_filters st), (doc st !! "language");
    try done.
Qed.

Lemma sync_language_inv st d :
  sync_language st = OK d ↔
    ∃ lang, languages st = [lang] ∧ d = <["language" := lang]> (doc st).
Proof.
  unfold sync_language. destruct (languages st) as [|l [|l2 ls]].
  - split; [done|]. by intros (? & [=] & _).
  - split; [intros [= <-]; eauto|]. by intros (? & [= <-] & ->).
  - split; [done|]. by intros (? & [=] & _).
Qed.

(** ** The language set of a group *)

Lemma languages_of_snoc views view :
  languages_of (views ++ [view]) =
    set_add (VStr (language view)) (languages_of views).
Proof. unfold languages_of. by rewrite foldl_snoc. Qed.

Lemma languages_of_elem x views :
  x ∈ languages_of views ↔ ∃ view, view ∈ views ∧ x = VStr (language view).
Proof.
  induction views as [|view views IH] using rev_ind.
  { unfold languages_of. simpl. rewrite elem_of_nil. split; [done|].
    by intros (? & ?%elem_of_nil & _). }
  rewrite languages_of_snoc, set_add_elem, IH. split.
  - intros [->|(v & Hv & ->)].
    + exists view. split; [|done]. apply elem_of_app. right. by left.
    + exists v. split; [|done]. apply elem_of_app. by left.
  - intros (v & [Hv|Hv%list_elem_of_singleton]%elem_of_app & ->); [|subst; auto].
    right. eauto.
Qed.

Lemma languages_of_nonempty views : views ≠ [] → languages_of views ≠ [].
Proof.
  destruct views as [|view views]; [done|]. intros _ Hnil.
  assert (VStr (language view) ∈ languages_of (view :: views)) as Hin.
  { apply languages_of_elem. exists view. split; [by left|done]. }
  rewrite Hnil in Hin. by apply elem_of_nil in Hin.
Qed.

Lemma set_add_singleton l s lang :
  s ≠ [] → set_add l s = [lang] → s = [lang] ∧ l = lang.
Proof.
  intros Hs. unfold set_add. destruct (existsb _ _) eqn:E.
  - intros ->. apply existsb_value_eqb in E.
    by apply list_elem_of_singleton in E.
  - destruct s as [|x [|y s]]; [done|done..].
Qed.

(** ** One group, from the fetched document to the merged one *)

Lemma accumulate_eval rm d views :
  section_ok "views" d → section_ok "filters" d →
  accumulate rm d views = sync_missing rm (foldl step (start d) views).
Proof.
  intros Hv Hf. unfold accumulate. rewrite sync_start_ok by done.
  cbn [mbind result_bind]. rewrite sync_views_ok; [done|].
  by apply candidates_ok_start.
Qed.

Lemma accumulate_inv rm d views st :
  accumulate rm d views = OK st →
  section_ok "views" d ∧ section_ok "filters" d.
Proof.
  unfold accumulate. destruct (sync_start d) as [st0|] eqn:E; [|done].
  intros _. apply sync_start_inv in E. tauto.
Qed.

Lemma sync_doc_accumulate rm d views :
  sync_doc rm d views = accumulate rm d views ≫= sync_language.
Proof.
  unfold sync_doc, accumulate. destruct (sync_start d) as [st0|]; [|done].
  cbn [mbind result_bind]. by destruct (sync_views st0 views).
Qed.

Lemma missing_views_eq st : missing "views" st = missing_views st.
Proof. done. Qed.

Lemma missing_filters_eq st : missing "filters" st = missing_filters st.
Proof. done. Qed.

Lemma candidate_remains_iff d views :
  section_ok "views" d → section_ok "filters" d →
  let st := foldl step (start d) views in
  (missing_views st = [] ∧ missing_filters st = []) ↔
    ¬ candidate_remains d views.
Proof.
  intros Hv Hf st.
  pose proof (candidates_ok_start d Hv Hf) as Hst.
  assert (∀ s n, s = "views" ∨ s = "filters" →
    n ∈ missing s st ↔
      is_Some (section_of s d !! n) ∧ last_entry s n views = None) as Hmiss.
  { intros s n Hs. unfold st. by rewrite missing_run, missing_start. }
  split.
  - intros [Hmv Hmf] (s & n & Hs & Hn & Hlast).
    assert (n ∈ missing s st) as Hin by (by apply Hmiss).
    destruct Hs as [-> | ->].
    + rewrite missing_views_eq, Hmv in Hin. by apply elem_of_nil in Hin.
    + rewrite missing_filters_eq, Hmf in Hin. by apply elem_of_nil in Hin.
  - intros Hno. split.
    + destruct (missing_views st) as [|n l] eqn:E; [done|]. destruct Hno.
      exists "views", n. split; [by left|]. apply Hmiss; [by left|].
      rewrite missing_views_eq, E. by left.
    + destruct (missing_filters st) as [|n l] eqn:E; [done|]. destruct Hno.
      exists "filters", n. split; [by right|]. apply Hmiss; [by right|].
      rewrite missing_filters_eq, E. by left.
Qed.

(** The state the conflict check sees, in terms of the fetched document
    and the definitions of the group. *)
Lemma accumulate_facts rm d views st :
  accumulate rm d views = OK st →
  (∀ k, k ≠ "views" → k ≠ "filters" → doc st !! k = d !! k) ∧
  (∀ s, s = "views" ∨ s = "filters" →
     section_ok s d ∧ section_ok s (doc st) ∧
     (is_Some (doc st !! s) ↔
        is_Some (d !! s) ∨ ∃ n, is_Some (last_entry s n views)) ∧
     ∀ n, section_of s (doc st) !! n =
            match last_entry s n views with
            | Some v => Some v
            | None => if rm then None else section_of s d !! n
            end) ∧
  (rm = true → languages st = languages_of views) ∧
  (rm = false → ∀ lang, d !! "language" = Some lang →
     candidate_remains d views →
     hashable lang = true ∧ languages st = set_add lang (languages_of views)) ∧
  (rm = false → d !! "language" = None ∨ ¬ candidate_remains d views →
     languages st = languages_of views).
Proof.
  intros Hacc. destruct (accumulate_inv _ _ _ _ Hacc) as [Hv Hf].
  rewrite accumulate_eval in Hacc by done.
  pose proof (candidates_ok_start d Hv Hf) as Hst0.
  pose proof (candidates_ok_run _ views Hst0) as Hst1.
  set (st1 := foldl step (start d) views) in *.
  assert (languages st1 = languages_of views) as Hlang.
  { unfold st1. by rewrite languages_run. }
  assert (∀ k, k ≠ "views" → k ≠ "filters" → doc st1 !! k = d !! k) as Hother.
  { intros k ??. unfold st1. by rewrite doc_run_other. }
  assert (∀ s, s = "views" ∨ s = "filters" → section_ok s d) as Hokd.
  { by intros s [-> | ->]. }
  assert (∀ s n, section_of s (doc st1) !! n =
            match last_entry s n views with
            | Some v => Some v
            | None => section_of s d !! n
            end) as Hsecrun.
  { intros s n. unfold st1. by rewrite section_of_run. }
  assert (∀ s n, s = "views" ∨ s = "filters" →
    n ∈ missing s st1 ↔
      is_Some (section_of s d !! n) ∧ last_entry s n views = None) as Hmiss.
  { intros s n Hs. unfold st1. by rewrite missing_run, missing_start. }
  assert (∀ s, is_Some (doc st1 !! s) ↔
            is_Some (d !! s) ∨ ∃ n, is_Some (last_entry s n views)) as Hpres.
  { intros s. unfold st1. by rewrite present_run. }
  destruct rm.
  - destruct (sync_missing_true_ok st1 Hst1)
      as (st' & Hst' & Hl & Ho & Hsec).
    rewrite Hst' in Hacc. injection Hacc as <-.
    split_and!; [|
      |by rewrite Hl|done|done].
    + intros k ??. by rewrite Ho, Hother.
    + intros s Hs. destruct (Hsec s Hs) as (Hok & Hp & Hn).
      split_and!; [by auto|done| |].
      * by rewrite Hp.
      * intros n. rewrite Hn, Hsecrun.
        destruct (last_entry s n views) as [v|] eqn:Hlast.
        -- rewrite bool_decide_eq_false_2; [done|].
           rewrite Hmiss, Hlast by done. by intros [_ [=]].
        -- case_bool_decide as Hin; [done|].
           rewrite Hmiss in Hin by done.
           destruct (section_of s d !! n) eqn:E; [|done].
           destruct Hin. split; [by eexists|done].
  - rewrite sync_missing_false_spec, Hother in Hacc by done.
    assert (doc st = doc st1) as Hdoc.
    { destruct (d !! "language"); [|by injection Hacc as <-].
      case_bool_decide; [by injection Hacc as <-|].
      destruct (hashable v); [by injection Hacc as <-|done]. }
    pose proof (candidate_remains_iff d views Hv Hf) as Hrem.
    fold st1 in Hrem. cbn zeta in Hrem.
    split_and!; [by rewrite Hdoc| |done| |].
    + intros s Hs. rewrite Hdoc. split_and!; [by auto|by apply Hst1|done|done].
    + intros _ lang Hl Hcand. rewrite Hl in Hacc.
      rewrite bool_decide_eq_false_2 in Hacc by (by rewrite Hrem; auto).
      destruct (hashable lang); [|done]. injection Hacc as <-.
      cbn [languages]. by rewrite Hlang.
    + intros _ [Hl|Hcand].
      * rewrite Hl in Hacc. by injection Hacc as <-.
      * destruct (d !! "language"); [|by injection Hacc as <-].
        rewrite bool_decide_eq_true_2 in Hacc by (by apply Hrem).
        by injection Hacc as <-.
Qed.

(** When the group succeeds. *)
Lemma accumulate_ok rm d views :
  section_ok "views" d → section_ok "filters" d →
  (rm = false → match d !! "language" with
                | Some lang => hashable lang = true
                | None => True
                end) →
  succeeds (accumulate rm d views).
Proof.
  intros Hv Hf Hl. rewrite accumulate_eval by done. unfold succeeds.
  pose proof (candidates_ok_start d Hv Hf) as Hst0.
  pose proof (candidates_ok_run _ views Hst0) as Hst1.
  destruct rm.
  - destruct (sync_missing_true_ok _ Hst1) as (st' & -> & _). by exists st'.
  - rewrite sync_missing_false_spec, doc_run_other by done.
    specialize (Hl eq_refl). change (doc (start d)) with d.
    destruct (d !! "language"); [|eexists; reflexivity].
    case_bool_decide; [eexists; reflexivity|]. rewrite Hl.
    eexists; reflexivity.
Qed.

(** ** Fields the synchronisation does not look at *)

Section frame.
Context (k : string) (x : value).
Hypothesis k_views : k ≠ "views".
Hypothesis k_filters : k ≠ "filters".

#[local] Abbreviation ins := (insert (M := document) k x).

Lemma section_keys_frame s d :
  s = "views" ∨ s = "filters" →
  section_keys s (ins d) = section_keys s d.
Proof.
  intros Hs. unfold section_keys. rewrite lookup_insert_ne; [done|].
  by destruct Hs as [-> | ->].
Qed.

Lemma section_set_frame s n v d :
  s = "views" ∨ s = "filters" →
  section_set s n v (ins d) = result_map ins (section_set s n v d).
Proof.
  intros Hs. assert (k ≠ s) as Hk by (by destruct Hs as [-> | ->]).
  unfold section_set. rewrite lookup_insert_ne by done.
  destruct (d !! s) as [[]|]; simpl; try done; by rewrite insert_insert_ne.
Qed.

Lemma section_del_frame s n d :
  s = "views" ∨ s = "filters" →
  section_del s n (ins d) = result_map ins (section_del s n d).
Proof.
  intros Hs. assert (k ≠ s) as Hk by (by destruct Hs as [-> | ->]).
  unfold section_del. rewrite lookup_insert_ne by done.
  destruct (d !! s) as [[| | | | |m]|]; simpl; try done.
  destruct (m !! n); simpl; [|done]. by rewrite insert_insert_ne.
Qed.

Lemma del_all_frame s names d :
  s = "views" ∨ s = "filters" →
  del_all s names (ins d) = result_map ins (del_all s names d).
Proof.
  intros Hs. revert d. induction names as [|n names IH]; intros d; [done|].
  cbn [del_all]. rewrite section_del_frame by done.
  destruct (section_del s n d); simpl; [apply IH|done].
Qed.

Lemma sync_start_frame d :
  sync_start (ins d) = result_map (with_doc ins) (sync_start d).
Proof.
  unfold sync_start. rewrite !section_keys_frame by auto.
  destruct (section_keys "views" d); simpl; [|done].
  by destruct (section_keys "filters" d).
Qed.

Lemma sync_view_frame st view :
  sync_view (with_doc ins st) view
    = result_map (with_doc ins) (sync_view st view).
Proof.
  unfold sync_view. destruct (body (filter_fun view)); cbn [with_doc doc];
    rewrite section_set_frame by auto;
    match goal with
    | |- context [section_set ?s ?n ?v ?d] => by destruct (section_set s n v d)
    end.
Qed.

Lemma sync_views_frame st views :
  sync_views (with_doc ins st) views
    = result_map (with_doc ins) (sync_views st views).
Proof.
  revert st. induction views as [|view views IH]; intros st; [done|].
  cbn [sync_views]. rewrite sync_view_frame.
  destruct (sync_view st view); simpl; [apply IH|done].
Qed.

Lemma sync_missing_frame rm st :
  rm = true ∨ k ≠ "language" →
  sync_missing rm (with_doc ins st)
    = result_map (with_doc ins) (sync_missing rm st).
Proof.
  intros Hk. destruct rm.
  - unfold sync_missing. cbn [with_doc doc missing_views missing_filters].
    rewrite del_all_frame by auto.
    destruct (del_all "views" (missing_views st) (doc st)) as [d1|];
      simpl; [|done].
    rewrite del_all_frame by auto.
    by destruct (del_all "filters" (missing_filters st) d1).
  - destruct Hk as [|Hk]; [done|]. rewrite !sync_missing_false_spec.
    cbn [with_doc doc missing_views missing_filters languages].
    rewrite lookup_insert_ne by done.
    destruct (doc st !! "language") as [lang|]; [|done].
    case_bool_decide; [done|]. by destruct (hashable lang).
Qed.

Lemma accumulate_frame rm d views :
  rm = true ∨ k ≠ "language" →
  accumulate rm (ins d) views
    = result_map (with_doc ins) (accumulate rm d views).
Proof.
  intros Hk. unfold accumulate. rewrite sync_start_frame.
  destruct (sync_start d) as [st|]; simpl; [|done].
  rewrite sync_views_frame.
  destruct (sync_views st views) as [st'|]; simpl; [|done].
  by apply sync_missing_frame.
Qed.

Lemma sync_language_frame st :
  k ≠ "language" →
  sync_language (with_doc ins st) = result_map ins (sync_language st).
Proof.
  intros Hk. unfold sync_language. cbn [with_doc doc languages].
  destruct (languages st) as [|l [|??]]; simpl; try done.
  by rewrite insert_insert_ne.
Qed.

Lemma sync_doc_frame rm d views :
  k ≠ "language" →
  sync_doc rm (ins d) views = result_map ins (sync_doc rm d views).
Proof.
  intros Hk. rewrite !sync_doc_accumulate, accumulate_frame by auto.
  destruct (accumulate rm d views); simpl; [|done].
  by apply sync_language_frame.
Qed.
End frame.

Lemma sync_doc_language_unread lang d views :
  sync_doc true (<["language" := lang]> d) views = sync_doc true d views.
Proof.
  rewrite !sync_doc_accumulate, accumulate_frame by auto.
  destruct (accumulate true d views) as [st|]; simpl; [|done].
  unfold sync_language. cbn [with_doc doc languages].
  destruct (languages st) as [|l [|??]]; try done.
  by rewrite insert_insert_eq.
Qed.

(** ** The merged document of a group *)

Lemma languages_run_start d views :
  languages (foldl step (start d) views) = languages_of views.
Proof. by rewrite languages_run. Qed.

Lemma sync_doc_inv rm d views d' :
  sync_doc rm d views = OK d' →
  ∃ st lang, accumulate rm d views = OK st ∧ languages st = [lang] ∧
             d' = <["language" := lang]> (doc st).
Proof.
  rewrite sync_doc_accumulate. destruct (accumulate rm d views) as [st|]; [|done].
  simpl. intros (lang & Hl & ->)%sync_language_inv. eauto.
Qed.

Lemma sync_language_conflict st l1 l2 :
  l1 ∈ languages st → l2 ∈ languages st → l1 ≠ l2 →
  sync_language st = Raise (ValueError (languages st)).
Proof.
  unfold sync_language. destruct (languages st) as [|x [|y l]]; [| |done].
  - by intros ?%elem_of_nil.
  - intros ->%list_elem_of_singleton ->%list_elem_of_singleton. done.
Qed.

Lemma accumulate_languages_incl rm d views st x :
  accumulate rm d views = OK st → x ∈ languages_of views → x ∈ languages st.
Proof.
  intros Hacc. destruct (accumulate_inv _ _ _ _ Hacc) as [Hv Hf].
  destruct (accumulate_facts _ _ _ _ Hacc) as (_ & _ & Ht & _ & _).
  destruct rm; [by rewrite Ht|]. clear Ht.
  rewrite accumulate_eval, sync_missing_false_spec in Hacc by done.
  rewrite <- (languages_run_start d views).
  destruct (doc _ !! "language") as [lang|]; [|by injection Hacc as <-].
  case_bool_decide; [by injection Hacc as <-|].
  destruct (hashable lang); [|done]. injection Hacc as <-. cbn [languages].
  rewrite set_add_elem. auto.
Qed.

(** The merged document, in terms of the fetched document and the
    definitions of the group. *)
Lemma sync_doc_facts rm d views d' :
  sync_doc rm d views = OK d' →
  (∀ k, k ≠ "views" → k ≠ "filters" → k ≠ "language" → d' !! k = d !! k) ∧
  (∀ s, s = "views" ∨ s = "filters" →
     section_ok s d ∧ section_ok s d' ∧
     (is_Some (d' !! s) ↔
        is_Some (d !! s) ∨ ∃ n, is_Some (last_entry s n views)) ∧
     ∀ n, section_of s d' !! n =
            match last_entry s n views with
            | Some v => Some v
            | None => if rm then None else section_of s d !! n
            end) ∧
  ∃ lang, d' !! "language" = Some lang ∧
          (∀ x, x ∈ languages_of views → x = lang) ∧
          (views ≠ [] → languages_of views = [lang]).
Proof.
  intros (st & lang & Hacc & Hl & ->)%sync_doc_inv.
  destruct (accumulate_facts _ _ _ _ Hacc) as (Ho & Hsec & _).
  split_and!.
  - intros k ???. rewrite lookup_insert_ne by done. by apply Ho.
  - intros s Hs. destruct (Hsec s Hs) as (Hokd & Hok & Hp & Hn).
    pose proof (section_sum s Hs) as Hne.
    rewrite section_ok_insert_ne, section_of_insert_ne, lookup_insert_ne by done.
    done.
  - exists lang. rewrite lookup_insert_eq. split; [done|].
    assert (∀ x, x ∈ languages_of views → x = lang) as Hall.
    { intros x Hx. eapply accumulate_languages_incl in Hx; [|done].
      rewrite Hl in Hx. by apply list_elem_of_singleton in Hx. }
    split; [done|]. intros Hne.
    pose proof (languages_of_nonempty views Hne) as Hnil.
    assert (NoDup (languages_of views)) as Hnd.
    { clear. induction views as [|view views IH] using rev_ind; [constructor|].
      rewrite languages_of_snoc. by apply set_add_NoDup. }
    destruct (languages_of views) as [|a [|b l]]; [done| |].
    + f_equal. apply Hall. by left.
    + apply NoDup_cons in Hnd as [Hab _]. destruct Hab.
      rewrite (Hall a), (Hall b); [by left|right; by left|by left].
Qed.

(** A group succeeds when the sections of the fetched document are
    dictionaries, the definitions agree on one language, and the stored
    language, where it counts, is that language. *)
Lemma sync_doc_ok rm d views lang :
  section_ok "views" d → section_ok "filters" d →
  languages_of views = [VStr lang] →
  (rm = false → d !! "language" = None ∨ d !! "language" = Some (VStr lang)) →
  ∃ st, accumulate rm d views = OK st ∧
        sync_doc rm d views = OK (<["language" := VStr lang]> (doc st)).
Proof.
  intros Hv Hf Hl Hd.
  destruct (accumulate_ok rm d views) as [st Hacc]; [done..| |].
  { intros Hrm. by destruct (Hd Hrm) as [-> | ->]. }
  exists st. split; [done|]. rewrite sync_doc_accumulate, Hacc. simpl.
  apply sync_language_inv. exists (VStr lang). split; [|done].
  rewrite accumulate_eval in Hacc by done.
  pose proof (languages_run_start d views) as Hrun. rewrite Hl in Hrun.
  destruct rm.
  - destruct (sync_missing_true_ok (foldl step (start d) views))
      as (st' & Hst' & Hl' & _).
    { by apply candidates_ok_run, candidates_ok_start. }
    rewrite Hst' in Hacc. injection Hacc as <-. by rewrite Hl'.
  - rewrite sync_missing_false_spec, doc_run_other in Hacc by done.
    change (doc (start d)) with d in Hacc.
    destruct (Hd eq_refl) as [Hn|Hs]; rewrite ?Hn, ?Hs in Hacc.
    + by injection Hacc as <-.
    + case_bool_decide; [by injection Hacc as <-|]. simpl in Hacc.
      injection Hacc as <-. cbn [languages]. rewrite Hrun.
      apply set_add_in. by left.
Qed.

(** Merging a group into its own result changes nothing. *)
Lemma sync_doc_idempotent rm d views d' :
  views ≠ [] → sync_doc rm d views = OK d' → sync_doc rm d' views = OK d'.
Proof.
  intros Hne Hd.
  destruct (sync_doc_facts _ _ _ _ Hd) as (Ho & Hsec & lang & Hl & Hall & Hlangs).
  specialize (Hlangs Hne).
  assert (∃ l, lang = VStr l) as [l ->].
  { assert (lang ∈ languages_of views) as Hin by (rewrite Hlangs; by left).
    apply languages_of_elem in Hin as (v & _ & ->). eauto. }
  destruct (sync_doc_ok rm d' views l) as (st & _ & Hd2); [..|done|by auto|].
  { by apply (Hsec "views"); left. }
  { by apply (Hsec "filters"); right. }
  rewrite Hd2. f_equal.
  destruct (sync_doc_facts _ _ _ _ Hd2) as (Ho2 & Hsec2 & lang2 & Hl2 & _).
  apply document_eq.
  - intros s Hs. destruct (Hsec s Hs) as (_ & Hok & Hp & Hn).
    destruct (Hsec2 s Hs) as (_ & Hok2 & Hp2 & Hn2).
    split_and!; [done|done| |].
    + rewrite Hp2, Hp. tauto.
    + apply map_eq. intros n. rewrite Hn2, Hn.
      destruct (last_entry s n views); [done|]. by destruct rm.
  - intros k Hkv Hkf. destruct (decide (k = "language")) as [->|Hkl].
    + by rewrite lookup_insert_eq.
    + by apply Ho2.
Qed.

(** ** The outer loop *)


Lemma sync_groups_raise db rm cb gs1 g gs2 e :
  Forall (λ x, succeeds (sync_group db rm cb x)) gs1 →
  sync_group db rm cb g = Raise e →
  sync_groups db rm cb (gs1 ++ g :: gs2) = Raise e.
Proof.
  intros Hgs Hg. induction Hgs as [|x gs1 [o Hx] _ IH]; cbn [app sync_groups].
  - by rewrite Hg.
  - rewrite Hx. cbn [mbind result_bind]. by rewrite IH.
Qed.

Lemma sync_group_raise db rm cb g e :
  sync_doc rm (fetch db g.1) g.2 = Raise e → sync_group db rm cb g = Raise e.
Proof. unfold sync_group, merge_group. by intros ->. Qed.

(** The documents that are queued when no callback changes them. *)
Lemma changed_docs_app db rm gs1 gs2 :
  changed_docs db rm (gs1 ++ gs2) =
    d1 ← changed_docs db rm gs1; d2 ← changed_docs db rm gs2; OK (d1 ++ d2).
Proof.
  induction gs1 as [|g gs1 IH]; cbn [app changed_docs].
  - by destruct (changed_docs db rm gs2).
  - destruct (merge_group db rm g) as [od|]; [|done]. cbn [mbind result_bind].
    rewrite IH. destruct (changed_docs db rm gs1) as [d1|]; [|done].
    cbn [mbind result_bind].
    destruct (changed_docs db rm gs2) as [d2|]; [|done].
    cbn [mbind result_bind]. by rewrite app_assoc.
Qed.

Lemma observer_None : observer None.
Proof. by intros f. Qed.

Lemma observer_Some : observer (Some OK).
Proof. by intros f [= <-]. Qed.

(** With a callback that changes nothing, the loop hands it the changed
    documents and queues them as they are. *)
Lemma sync_groups_observer db rm cb gs :
  observer cb →
  sync_groups db rm cb gs =
    docs ← changed_docs db rm gs;
    OK {| notified := match cb with Some _ => docs | None => [] end;
          submitted := docs |}.
Proof.
  intros Hobs. induction gs as [|g gs IH]; cbn [sync_groups changed_docs].
  { by destruct cb. }
  unfold sync_group. destruct (merge_group db rm g) as [od|]; [|done].
  cbn [mbind result_bind]. rewrite IH.
  assert (queue cb od =
          OK {| notified := match cb with
                            | Some _ => option_list od
                            | None => []
                            end;
                submitted := option_list od |}) as ->.
  { destruct od as [d|]; [|by destruct cb]. destruct cb as [f|]; [|done].
    cbn [queue]. by rewrite (Hobs f eq_refl d). }
  cbn [mbind result_bind]. destruct (changed_docs db rm gs) as [docs|]; [|done].
  cbn [mbind result_bind notified submitted]. by destruct cb.
Qed.

Lemma sync_many_observer db views rm cb :
  observer cb →
  sync_many db views rm cb =
    docs ← changed_docs db rm (groupby views);
    OK {| notified := match cb with Some _ => docs | None => [] end;
          submitted := docs |}.
Proof. apply sync_groups_observer. Qed.

Lemma groupby_pair v1 v2 :
  design v1 = design v2 → groupby [v1; v2] = [(design v2, [v1; v2])].
Proof. intros Hd. cbn [groupby]. by rewrite bool_decide_eq_true_2. Qed.

(** ** The language conflict *)

(** C1. When the language set of a group, as accumulated up to the
    check, has two different members, [sync_many] raises the conflict
    error; two definitions of one design document with different
    languages always make [sync_many] fail, with the conflict error when
    the stored document is well formed. *)
Theorem language_conflict_raises :
  (∀ db views rm cb gs1 g gs2 st l1 l2,
     groupby views = gs1 ++ g :: gs2 →
     Forall (λ x, succeeds (sync_group db rm cb x)) gs1 →
     accumulate rm (fetch db g.1) g.2 = OK st →
     l1 ∈ languages st → l2 ∈ languages st → l1 ≠ l2 →
     sync_many db views rm cb = Raise (ValueError (languages st))) ∧
  (∀ db v1 v2 cb,
     design v1 = design v2 → language v1 ≠ language v2 →
     (∃ e, sync_many db [v1; v2] false cb = Raise e) ∧
     (well_formed (fetch db (design v1)) →
      ∃ langs, sync_many db [v1; v2] false cb = Raise (ValueError langs))).
Proof.
  split.
  - intros db views rm cb gs1 g gs2 st l1 l2 Hgs Hok Hacc H1 H2 Hne.
    unfold sync_many. rewrite Hgs. apply sync_groups_raise; [done|].
    apply sync_group_raise. rewrite sync_doc_accumulate, Hacc. simpl.
    by apply (sync_language_conflict st l1 l2).
  - intros db v1 v2 cb Hd Hl.
    assert (∀ v, v = v1 ∨ v = v2 →
              VStr (language v) ∈ languages_of [v1; v2]) as Hin.
    { intros v Hv. apply languages_of_elem. exists v. split; [|done].
      destruct Hv as [-> | ->]; [by left|right; by left]. }
    split.
    + destruct (sync_doc false (fetch db (design v2)) [v1; v2]) as [d'|e] eqn:E.
      * destruct (sync_doc_facts _ _ _ _ E) as (_ & _ & lang & _ & Hall & _).
        destruct Hl. pose proof (Hall _ (Hin v1 (or_introl eq_refl))) as H1.
        pose proof (Hall _ (Hin v2 (or_intror eq_refl))) as H2. congruence.
      * exists e. unfold sync_many. rewrite groupby_pair by done.
        cbn [sync_groups]. by rewrite (sync_group_raise _ _ _ _ e).
    + rewrite Hd. intros (Hv & Hf & Hlang).
      destruct (accumulate_ok false (fetch db (design v2)) [v1; v2])
        as [st Hacc]; [done..|].
      exists (languages st). unfold sync_many. rewrite groupby_pair by done.
      cbn [sync_groups]. rewrite (sync_group_raise _ _ _ _ (ValueError (languages st)));
        [done|]. rewrite sync_doc_accumulate. cbn [fst snd]. rewrite Hacc. simpl.
      apply (sync_language_conflict st (VStr (language v1)) (VStr (language v2)));
        [..|congruence]; eapply accumulate_languages_incl; eauto.
Qed.

(** Two views of an empty database's design document, one in JavaScript
    and one in Python. *)
Lemma language_conflict_raises_witness :
  let v1 := {| design := "tests"; name := "all"; map_fun := Some "function(doc){}";
               reduce_fun := None; filter_fun := None; language := "javascript";
               options := VNone; defaults := ∅ |} in
  let v2 := {| design := "tests"; name := "some"; map_fun := Some "def fun(doc): pass";
               reduce_fun := None; filter_fun := None; language := "python";
               options := VNone; defaults := ∅ |} in
  ∃ langs, sync_many ∅ [v1; v2] false None = Raise (ValueError langs).
Proof.
  intros v1 v2.
  apply (proj2 (proj2 language_conflict_raises ∅ v1 v2 None eq_refl
                  ltac:(discriminate))).
  vm_compute. tauto.
Defined.

(** C2. The stored language joins the language set of a group exactly
    when removal is not requested, a removal candidate remains and the
    fetched document has a language; with removal requested the outcome
    does not depend on the stored language at all. *)
Theorem stored_language_joins rm d views :
  (∀ st, accumulate rm d views = OK st →
     (rm = false ∧ candidate_remains d views ∧ is_Some (d !! "language") →
        ∃ lang, d !! "language" = Some lang ∧ doc st !! "language" = Some lang ∧
                languages st = set_add lang (languages_of views)) ∧
     (¬ (rm = false ∧ candidate_remains d views ∧ is_Some (d !! "language")) →
        languages st = languages_of views)) ∧
  (∀ lang,
     sync_doc true (<["language" := lang]> d) views = sync_doc true d views).
Proof.
  split; [|intros lang; apply sync_doc_language_unread].
  intros st Hacc.
  destruct (accumulate_facts _ _ _ _ Hacc) as (Ho & _ & Ht & Hadd & Hnot).
  split.
  - intros (-> & Hcand & [lang Hl]). exists lang.
    destruct (Hadd eq_refl lang Hl Hcand) as [_ ->].
    split_and!; [done| |done]. by rewrite Ho.
  - intros Hno. destruct rm; [by apply Ht|]. apply Hnot; [done|].
    destruct (d !! "language") as [lang|]; [|by left]. right.
    intros Hcand. apply Hno. split_and!; [done|done|by eexists].
Qed.

(** A stored Python view [b] beside the JavaScript definition of [a]. *)
Lemma stored_language_joins_witness :
  let view := {| design := "tests"; name := "a"; map_fun := Some "function(doc){}";
                 reduce_fun := None; filter_fun := None; language := "javascript";
                 options := VNone; defaults := ∅ |} in
  let d : document :=
    {[ "_id" := VStr "_design/tests"; "language" := VStr "python";
       "views" := VDict {[ "b" := VDict {[ "map" := VStr "def fun(doc): pass" ]} ]} ]} in
  ∃ st, accumulate false d [view] = OK st ∧
        languages st = [VStr "javascript"; VStr "python"].
Proof.
  intros view d.
  assert (∃ st, accumulate false d [view] = OK st) as [st Hst].
  { vm_compute. by eexists. }
  exists st. split; [done|].
  destruct (proj1 (proj1 (stored_language_joins false d [view]) st Hst))
    as (lang & Hl & _ & ->).
  - split_and!; [done| |by eexists].
    exists "views", "b". split_and!; [by left|by eexists|done].
  - injection Hl as <-. reflexivity.
Defined.

(** ** Stale entries *)

Lemma last_entry_single s n view :
  last_entry s n [view] =
    if bool_decide ((entry_of view).1 = s ∧ name view = n)
    then Some (entry_of view).2 else None.
Proof. done. Qed.

Lemma entry_of_view view :
  body (filter_fun view) = None →
  entry_of view = ("views", VDict (build_funcs view)).
Proof. unfold entry_of. by intros ->. Qed.


Lemma languages_of_single view :
  languages_of [view] = [VStr (language view)].
Proof. done. Qed.

(** C4. In the merged document of a group every entry that a definition
    has written holds what the last such definition wrote; an entry no
    definition has written is gone when removal is requested and is
    unchanged otherwise.  So with stored views [a] and [b] and one view
    definition for [a], the views of the result are [a] alone with
    removal, and the new [a] beside the old [b] without; the call returns
    with removal, and without it unless the stored language is another
    one than the definition's. *)
Theorem stale_entries_removed_on_request :
  (∀ rm d views d',
     sync_doc rm d views = OK d' →
     ∀ s, s = "views" ∨ s = "filters" →
     ∀ n, section_of s d' !! n =
            match last_entry s n views with
            | Some v => Some v
            | None => if rm then None else section_of s d !! n
            end) ∧
  (∀ d a b va vb view,
     a ≠ b → d !! "views" = Some (VDict {[ a := va; b := vb ]}) →
     section_ok "filters" d →
     name view = a → body (filter_fun view) = None →
     (∀ d', sync_doc true d [view] = OK d' →
            d' !! "views" = Some (VDict {[ a := VDict (build_funcs view) ]})) ∧
     (∀ d', sync_doc false d [view] = OK d' →
            d' !! "views" =
              Some (VDict {[ a := VDict (build_funcs view); b := vb ]})) ∧
     succeeds (sync_doc true d [view]) ∧
     (d !! "language" = None ∨ d !! "language" = Some (VStr (language view)) →
      succeeds (sync_doc false d [view]))).
Proof.
  split.
  - intros rm d views d' Hd s Hs n.
    destruct (sync_doc_facts _ _ _ _ Hd) as (_ & Hsec & _).
    by apply Hsec.
  - intros d a b va vb view Hab Hviews Hf <- Hbody.
    assert (section_ok "views" d) as Hv by (unfold section_ok; by rewrite Hviews).
    assert (section_of "views" d = {[ name view := va; b := vb ]}) as Hsecd.
    { unfold section_of. by rewrite Hviews. }
    assert (∀ rm d', sync_doc rm d [view] = OK d' →
      d' !! "views" = Some (VDict (
        if rm then {[ name view := VDict (build_funcs view) ]}
        else {[ name view := VDict (build_funcs view); b := vb ]})))
      as Hboth.
    { intros rm d' Hd.
      destruct (sync_doc_facts _ _ _ _ Hd) as (_ & Hsec & _).
      destruct (Hsec "views") as (_ & Hok & Hp & Hn); [by left|].
      rewrite (section_ok_lookup "views" _ Hok)
        by (apply Hp; left; by rewrite Hviews).
      do 2 f_equal. apply map_eq. intros n. rewrite Hn, last_entry_single.
      rewrite entry_of_view by done. cbn [fst snd]. rewrite Hsecd.
      case_bool_decide as Hc.
      - destruct Hc as [_ <-].
        destruct rm; by rewrite ?lookup_insert_eq, ?lookup_singleton_eq.
      - assert (name view ≠ n) as Hne by tauto.
        destruct rm; [by rewrite lookup_singleton_ne|].
        by rewrite !(lookup_insert_ne _ (name view)). }
    split_and!.
    + apply (Hboth true).
    + apply (Hboth false).
    + destruct (sync_doc_ok true d [view] (language view)) as (st & _ & Hd);
        [done..|]. by eexists.
    + intros Hlang.
      destruct (sync_doc_ok false d [view] (language view)) as (st & _ & Hd);
        [done..|]. by eexists.
Qed.

(** Stored views [a] and [b], one definition for [a]. *)
Lemma stale_entries_removed_on_request_witness :
  let view := {| design := "tests"; name := "a"; map_fun := Some "function(doc){}";
                 reduce_fun := None; filter_fun := None; language := "javascript";
                 options := VNone; defaults := ∅ |} in
  let old := VDict {[ "map" := VStr "function(doc){emit(1,1);}" ]} in
  let d : document :=
    {[ "_id" := VStr "_design/tests"; "language" := VStr "javascript";
       "views" := VDict {[ "a" := old; "b" := old ]} ]} in
  (∃ d', sync_doc true d [view] = OK d' ∧
         d' !! "views" = Some (VDict {[ "a" := VDict (build_funcs view) ]})) ∧
  (∃ d', sync_doc false d [view] = OK d' ∧
         d' !! "views" =
           Some (VDict {[ "a" := VDict (build_funcs view); "b" := old ]})).
Proof.
  intros view old d.
  destruct (proj2 stale_entries_removed_on_request d "a" "b" old old view)
    as (Hrm & Hkeep & [d1 Hd1] & Hok);
    [discriminate|reflexivity|exact I|reflexivity|reflexivity|].
  destruct Hok as [d2 Hd2]; [right; reflexivity|].
  split; [exists d1|exists d2]; auto.
Defined.

(** ** The section a definition is written to *)




(** ** An empty map body *)

(** C10. The constructor rejects exactly the case of a map body and a
    filter body that are both [None]: a definition with the empty string
    as its map body and no filter body is accepted, the empty string is
    stored as it is, its function bundle is empty, and [sync_many] writes
    that empty bundle under the definition's name in [views]. *)
Theorem empty_map_body_is_accepted design_ name_ lang dflts :
  (∀ m r opts f,
     DesignDefinition_init design_ name_ m r lang opts f dflts
       = Raise AssertionError ↔ m = SrcNone ∧ f = SrcNone) ∧
  ∃ view,
    DesignDefinition_init design_ name_ (SrcStr "") SrcNone lang VNone
      SrcNone dflts = OK view ∧
    name view = name_ ∧ map_fun view = Some "" ∧ build_funcs view = ∅ ∧
    (∀ rm d d',
       sync_doc rm d [view] = OK d' →
       d' !! "views" = Some (VDict (section_of "views" d')) ∧
       section_of "views" d' !! name_ = Some (VDict ∅)) ∧
    (∀ db rm cb,
       db !! design_id (design view) = None →
       let d' : document :=
         <["language" := VStr lang]>
           (<["views" := VDict {[ name_ := VDict ∅ ]}]>
              {[ "_id" := VStr (design_id (design view)) ]}) in
       sync_many db [view] rm cb = queue cb (Some d')).
Proof.
  split; [intros; apply init_raises_iff|].
  eexists. split; [reflexivity|]. cbn [name map_fun design].
  split_and!; [done..| |].
  - intros rm d d' Hd.
    destruct (sync_doc_facts _ _ _ _ Hd) as (_ & Hsec & _).
    destruct (Hsec "views") as (_ & Hok & Hp & Hn); [by left|].
    split.
    + apply section_ok_lookup; [done|]. apply Hp. right. exists name_.
      rewrite last_entry_single. cbn [entry_of body filter_fun fst snd name].
      by rewrite bool_decide_eq_true_2.
    + rewrite Hn, last_entry_single. cbn [entry_of body filter_fun fst snd name].
      by rewrite bool_decide_eq_true_2.
  - intros db rm cb Hdb.
    set (d' := <["language" := VStr lang]> _).
    unfold sync_many. cbn [groupby sync_groups design].
    unfold sync_group, merge_group, fetch, db_get. cbn [fst snd]. rewrite Hdb.
    match goal with
    | |- context [sync_doc rm ?d ?vs] =>
        assert (sync_doc rm d vs = OK d') as ->
    end.
    { unfold sync_doc. rewrite sync_start_ok by done.
      cbn [mbind result_bind]. rewrite sync_views_ok
        by (by apply candidates_ok_start).
      cbn [foldl mbind result_bind]. by destruct rm. }
    cbn [mbind result_bind].
    destruct (doc_eqb d' _) eqn:E.
    + apply doc_eqb_spec in E. apply (f_equal (λ m, m !! "language")) in E.
      unfold d' in E. by rewrite lookup_insert_eq in E.
    + cbn [mbind result_bind]. destruct cb as [f|]; [|done].
      cbn [queue]. by destruct (f d').
Qed.

(** On an empty database. *)
Lemma empty_map_body_is_accepted_witness :
  ∃ d', sync_many ∅
          [{| design := "tests"; name := "all"; map_fun := Some "";
              reduce_fun := None; filter_fun := None; language := "javascript";
              options := VNone; defaults := ∅ |}] false None
          = OK {| notified := []; submitted := [d'] |} ∧
        d' !! "views" = Some (VDict {[ "all" := VDict ∅ ]}).
Proof.
  destruct (empty_map_body_is_accepted "tests" "all" "javascript" ∅)
    as (_ & view & Hview & _ & _ & _ & _ & Hsync).
  injection Hview as <-.
  eexists. split; [apply (Hsync ∅ false None); reflexivity|reflexivity].
Defined.

(** ** Grouping *)

Lemma groupby_cons view views :
  groupby (view :: views) =
    match groupby views with
    | (key, group) :: groups =>
        if bool_decide (design view = key)
        then (key, view :: group) :: groups
        else (design view, [view]) :: (key, group) :: groups
    | [] => [(design view, [view])]
    end.
Proof. done. Qed.


Lemma groupby_concat views : List.concat (groupby views).*2 = views.
Proof.
  induction views as [|view views IH]; [done|]. rewrite groupby_cons.
  destruct (groupby views) as [|[key group] groups]; simpl in *.
  - by rewrite <- IH.
  - case_bool_decide; simpl; by rewrite <- IH.
Qed.

Lemma groupby_groups views key group :
  (key, group) ∈ groupby views →
  group ≠ [] ∧ Forall (λ view, design view = key) group.
Proof.
  revert key group. induction views as [|view views IH]; intros key group.
  { by intros ?%elem_of_nil. }
  rewrite groupby_cons. destruct (groupby views) as [|[k g] gs].
  - intros [= -> ->]%list_elem_of_singleton. split; [done|]. by constructor.
  - case_bool_decide as Hd.
    + intros [[= -> ->]|Hin]%elem_of_cons.
      * destruct (IH k g) as [_ Hg]; [by left|]. split; [done|by constructor].
      * apply IH. by right.
    + intros [[= -> ->]|Hin]%elem_of_cons; [|by apply IH].
      split; [done|]. by constructor.
Qed.







(** ** The database between two calls *)

Lemma design_id_inj k1 k2 : design_id k1 = design_id k2 → k1 = k2.
Proof. unfold design_id. apply String.app_inj. Qed.

Lemma fetch_id db k : fetch db k !! "_id" = Some (VStr (design_id k)).
Proof.
  unfold fetch, db_get. destruct (db !! design_id k).
  - apply lookup_insert_eq.
  - apply lookup_singleton_eq.
Qed.

Lemma fetch_rev db k :
  fetch db k !! "_rev" = db !! design_id k ≫= (.!! "_rev").
Proof.
  unfold fetch, db_get. destruct (db !! design_id k) as [d|]; simpl.
  - by rewrite lookup_insert_ne.
  - by rewrite lookup_singleton_ne.
Qed.

Lemma fetch_ext db1 db2 k :
  db1 !! design_id k = db2 !! design_id k → fetch db1 k = fetch db2 k.
Proof. unfold fetch, db_get. by intros ->. Qed.

Lemma db_put_other db d doc_id :
  d !! "_id" ≠ Some (VStr doc_id) → db_put db d !! doc_id = db !! doc_id.
Proof.
  intros Hid. unfold db_put. destruct (d !! "_id") as [[| |i| | |]|]; try done.
  destruct (rev_eqb _ _); [|done]. rewrite lookup_insert_ne; [done|congruence].
Qed.

Lemma db_update_other db docs doc_id :
  Forall (λ d, d !! "_id" ≠ Some (VStr doc_id)) docs →
  db_update db docs !! doc_id = db !! doc_id.
Proof.
  intros Hdocs. revert db.
  induction Hdocs as [|d docs Hd _ IH]; intros db; [done|].
  unfold db_update in *. cbn [foldl]. by rewrite IH, db_put_other.
Qed.

Lemma db_put_same db d doc_id :
  d !! "_id" = Some (VStr doc_id) →
  d !! "_rev" = db !! doc_id ≫= (.!! "_rev") →
  db_put db d !! doc_id = Some (<["_rev" := next_rev (d !! "_rev")]> d).
Proof.
  intros Hid Hrev. unfold db_put. rewrite Hid, <- Hrev, rev_eqb_refl.
  apply lookup_insert_eq.
Qed.

Lemma db_update_app db docs1 docs2 :
  db_update db (docs1 ++ docs2) = db_update (db_update db docs1) docs2.
Proof. apply foldl_app. Qed.

Lemma sync_doc_keeps rm d views d' k :
  k ≠ "views" → k ≠ "filters" → k ≠ "language" →
  sync_doc rm d views = OK d' → d' !! k = d !! k.
Proof.
  intros ??? Hd. destruct (sync_doc_facts _ _ _ _ Hd) as (Ho & _). by apply Ho.
Qed.

Lemma merge_group_inv db rm g od :
  merge_group db rm g = OK od →
  match od with
  | Some d =>
      sync_doc rm (fetch db g.1) g.2 = OK d ∧
      d !! "_id" = Some (VStr (design_id g.1)) ∧
      d !! "_rev" = db !! design_id g.1 ≫= (.!! "_rev")
  | None => sync_doc rm (fetch db g.1) g.2 = OK (fetch db g.1)
  end.
Proof.
  unfold merge_group.
  destruct (sync_doc rm (fetch db g.1) g.2) as [d|] eqn:E; [|done].
  cbn [mbind result_bind]. destruct (doc_eqb d (fetch db g.1)) eqn:Heq.
  - intros [= <-]. by apply doc_eqb_spec in Heq as ->.
  - intros [= <-]. split_and!; [done|..].
    + erewrite (sync_doc_keeps _ _ _ _ "_id"); [apply fetch_id|done..].
    + erewrite (sync_doc_keeps _ _ _ _ "_rev"); [apply fetch_rev|done..].
Qed.

Lemma changed_docs_ids db rm gs docs :
  changed_docs db rm gs = OK docs →
  Forall (λ d, ∃ k, k ∈ gs.*1 ∧ d !! "_id" = Some (VStr (design_id k))) docs.
Proof.
  revert docs. induction gs as [|g gs IH]; intros docs.
  - intros [= <-]. constructor.
  - cbn [changed_docs].
    destruct (merge_group db rm g) as [od|] eqn:Hg; [|done].
    cbn [mbind result_bind].
    destruct (changed_docs db rm gs) as [ds|]; [|done].
    cbn [mbind result_bind]. intros [= <-].
    apply Forall_app. split.
    + apply merge_group_inv in Hg. destruct od as [d|]; [|constructor].
      repeat constructor. exists g.1. split; [by left|]. apply Hg.
    + eapply Forall_impl; [by apply IH|].
      intros d (k & Hk & Hd). exists k. split; [by right|done].
Qed.

Lemma sync_groups_none db rm cb gs :
  Forall (λ g, merge_group db rm g = OK None) gs →
  sync_groups db rm cb gs = OK {| notified := []; submitted := [] |}.
Proof.
  induction 1 as [|g gs Hg _ IH]; [done|].
  cbn [sync_groups]. unfold sync_group. by rewrite Hg, IH.
Qed.

Lemma docs_of_other_groups db rm gs docs k :
  k ∉ gs.*1 → changed_docs db rm gs = OK docs →
  Forall (λ d, d !! "_id" ≠ Some (VStr (design_id k))) docs.
Proof.
  intros Hk Hdocs. eapply Forall_impl; [by eapply changed_docs_ids|].
  intros d (k' & Hk' & ->) Heq.
  assert (k' = k) as -> by (apply design_id_inj; congruence). done.
Qed.

(** A group of the first call finds its own result in the database of
    the second call, and leaves it as it is. *)
Lemma merge_group_again db rm gs docs g :
  NoDup gs.*1 → changed_docs db rm gs = OK docs →
  g ∈ gs → g.2 ≠ [] →
  merge_group (db_update db docs) rm g = OK None.
Proof.
  intros Hnd Hdocs Hg Hne.
  apply list_elem_of_split in Hg as (gs1 & gs2 & ->).
  rewrite fmap_app, fmap_cons in Hnd.
  apply NoDup_app in Hnd as (_ & Hk1 & [Hk2 _]%NoDup_cons).
  rewrite changed_docs_app in Hdocs. cbn [changed_docs] in Hdocs.
  destruct (changed_docs db rm gs1) as [d1|] eqn:E1; [|done].
  destruct (merge_group db rm g) as [od|] eqn:Eg; [|done].
  destruct (changed_docs db rm gs2) as [d2|] eqn:E2; [|done].
  cbn [mbind result_bind] in Hdocs. injection Hdocs as <-.
  set (doc_id := design_id g.1).
  assert (db_update db d1 !! doc_id = db !! doc_id) as Hd1.
  { apply db_update_other. eapply docs_of_other_groups; [|done].
    intros Hin. by apply (Hk1 g.1); [|left]. }
  assert (∀ db', db_update db' d2 !! doc_id = db' !! doc_id) as Hd2.
  { intros db'. apply db_update_other. by eapply docs_of_other_groups. }
  rewrite !db_update_app. apply merge_group_inv in Eg.
  unfold merge_group.
  destruct od as [d|].
  - destruct Eg as (Hd & Hid & Hrev). change (option_list (Some d)) with [d].
    assert (fetch (db_update (db_update (db_update db d1) [d]) d2) g.1
            = <["_rev" := next_rev (d !! "_rev")]> d) as ->.
    { unfold fetch, db_get. fold doc_id. rewrite Hd2.
      unfold db_update at 1. cbn [foldl].
      rewrite (db_put_same _ d doc_id) by (by rewrite ?Hd1).
      apply insert_id. by rewrite lookup_insert_ne. }
    rewrite sync_doc_frame by done.
    rewrite (sync_doc_idempotent _ _ _ _ Hne Hd). simpl.
    by rewrite doc_eqb_refl.
  - change (db_update (db_update db d1) (option_list None))
      with (db_update db d1).
    rewrite (fetch_ext _ db) by (by fold doc_id; rewrite Hd2, Hd1).
    rewrite Eg. simpl. by rewrite doc_eqb_refl.
Qed.

(** ** Two calls in a row *)

(** C3, counterexample. With the definitions of one design document
    apart, the second call writes again: each of the two groups of [A]
    starts from the same fetched document, so only one of their results
    can be the stored one. *)
Lemma sync_many_twice_counterexample :
  let def d n := {| design := d; name := n; map_fun := Some "function(doc){}";
                    reduce_fun := None; filter_fun := None;
                    language := "javascript"; options := VNone;
                    defaults := ∅ |} in
  let views := [def "A" "x"; def "B" "y"; def "A" "z"] in
  (∃ db1 out,
     sync_many_db ∅ views false None = OK db1 ∧
     sync_many db1 views false None = OK out ∧
     List.length (submitted out) = 1) ∧
  (∃ out1 out,
     sync_many ∅ views false None = OK out1 ∧
     sync_many (db_update_unchecked ∅ (submitted out1)) views false None
       = OK out ∧
     List.length (submitted out) = 1).
Proof.
  intros def views. split.
  - destruct (result_check (sync_many_db ∅ views false None)
                (λ db1, match sync_many db1 views false None with
                        | OK out => List.length (submitted out) =? 1
                        | Raise _ => false
                        end)) as (db1 & Hdb1 & Hp); [vm_compute; reflexivity|].
    cbn beta in Hp.
    destruct (sync_many db1 views false None) as [out|] eqn:Hout;
      [|discriminate Hp].
    exists db1, out. split_and!; [exact Hdb1|exact Hout|].
    by apply Nat.eqb_eq.
  - destruct (result_check (sync_many ∅ views false None)
                (λ out1, match sync_many
                                 (db_update_unchecked ∅ (submitted out1))
                                 views false None with
                         | OK out => List.length (submitted out) =? 1
                         | Raise _ => false
                         end)) as (out1 & Hout1 & Hp);
      [vm_compute; reflexivity|].
    cbn beta in Hp.
    destruct (sync_many (db_update_unchecked ∅ (submitted out1)) views
                false None) as [out|] eqn:Hout; [|discriminate Hp].
    exists out1, out. split_and!; [exact Hout1|exact Hout|].
    by apply Nat.eqb_eq.
Qed.

(** C3, as amended. When no design document has its definitions in two
    separate runs of the input, a second call with the same arguments,
    on the database the first call has left, submits no document; the
    first call is one without a callback, or with one that leaves the
    documents as they are handed to it. *)
Theorem sync_many_twice_writes_nothing db views rm cb db1 :
  observer cb →
  NoDup (groupby views).*1 →
  sync_many_db db views rm cb = OK db1 →
  ∀ cb', sync_many db1 views rm cb'
           = OK {| notified := []; submitted := [] |}.
Proof.
  intros Hobs Hnd Hdb cb'. unfold sync_many_db in Hdb.
  rewrite sync_many_observer in Hdb by done.
  destruct (changed_docs db rm (groupby views)) as [docs|] eqn:Hdocs; [|done].
  cbn [mbind result_bind submitted] in Hdb. injection Hdb as <-.
  unfold sync_many. apply sync_groups_none.
  apply Forall_forall. intros g Hg.
  eapply merge_group_again; [done..|].
  destruct g as [k group]. by apply (groupby_groups views k group).
Qed.

(** Two design documents, the definitions of each together, and a
    callback that only looks at the documents. *)
Lemma sync_many_twice_writes_nothing_witness :
  let def d n := {| design := d; name := n; map_fun := Some "function(doc){}";
                    reduce_fun := None; filter_fun := None;
                    language := "javascript"; options := VNone;
                    defaults := ∅ |} in
  let views := [def "A" "x"; def "A" "z"; def "B" "y"] in
  ∃ db1, sync_many_db ∅ views false (Some OK) = OK db1 ∧
         sync_many db1 views false (Some OK)
           = OK {| notified := []; submitted := [] |}.
Proof.
  intros def views.
  destruct (result_check (sync_many_db ∅ views false (Some OK)) (λ _, true))
    as (db1 & Hdb1 & _); [vm_compute; reflexivity|].
  exists db1. split; [exact Hdb1|].
  apply (sync_many_twice_writes_nothing ∅ views false (Some OK) db1);
    [|.. |exact Hdb1].
  - intros f Hf d. injection Hf as <-. reflexivity.
  - vm_compute. repeat constructor; intros Hin;
      repeat (apply elem_of_cons in Hin as [Hin|Hin]; [discriminate Hin|]);
      by apply elem_of_nil in Hin.
Defined.

(** * Further properties *)

(** ** The name of the design document *)

(** X1. One leading [_design/] is removed from the name of the design
    document and no more, so a name that does not start with it may be
    given with or without the prefix. *)
Theorem init_strips_one_design_prefix d name m r lang opts f dflts :
  (∀ view,
     DesignDefinition_init ("_design/" +:+ d) name m r lang opts f dflts
       = OK view → design view = d) ∧
  (Str.startswith "_design/" d = false →
   DesignDefinition_init ("_design/" +:+ d) name m r lang opts f dflts
     = DesignDefinition_init d name m r lang opts f dflts).
Proof.
  unfold DesignDefinition_init.
  change (Str.startswith "_design/" ("_design/" +:+ d)) with true.
  change (Str.drop 8 ("_design/" +:+ d)) with d. cbn match. split.
  - intros view Hv. destruct (_ && _); [done|]. by injection Hv as <-.
  - by intros ->.
Qed.

Lemma init_strips_one_design_prefix_witness :
  DesignDefinition_init ("_design/" +:+ "tests") "all" (SrcStr "function(doc){}")
    SrcNone "javascript" VNone SrcNone ∅
  = DesignDefinition_init "tests" "all" (SrcStr "function(doc){}")
      SrcNone "javascript" VNone SrcNone ∅.
Proof.
  apply (proj2 (init_strips_one_design_prefix "tests" "all"
                  (SrcStr "function(doc){}") SrcNone "javascript" VNone
                  SrcNone ∅)).
  reflexivity.
Defined.

(** ** Bodies that need no normalisation *)

Lemma split_lf_nonempty s : Str.split_lf s ≠ [].
Proof.
  destruct s as [|c s]; [done|]. cbn [Str.split_lf].
  case_bool_decide; [done|]. by destruct (Str.split_lf s).
Qed.

Lemma join_cons_char sep c l ls :
  Str.join sep (String c l :: ls) = String c (Str.join sep (l :: ls)).
Proof. by destruct ls. Qed.

Lemma join_cons_cons sep x y l :
  Str.join sep (x :: y :: l) = x +:+ sep +:+ Str.join sep (y :: l).
Proof. done. Qed.

Lemma join_split_lf s : Str.join Str.NL (Str.split_lf s) = s.
Proof.
  induction s as [|c s IH]; [done|]. cbn [Str.split_lf].
  pose proof (split_lf_nonempty s) as Hne.
  destruct (Str.split_lf s) as [|l ls]; [done|].
  case_bool_decide as Hc.
  - subst c. by rewrite join_cons_cons, IH.
  - by rewrite join_cons_char, IH.
Qed.

Lemma split_lf_head c s :
  c ≠ Str.LF → ∃ l ls, Str.split_lf (String c s) = String c l :: ls.
Proof.
  intros Hc. cbn [Str.split_lf]. rewrite bool_decide_eq_false_2 by done.
  destruct (Str.split_lf s); by eexists _, _.
Qed.

Lemma startswith_nil_r p : Str.startswith p "" = true → p = "".
Proof. by destruct p. Qed.

Lemma dedent_unindented c code :
  Str.is_blank c = false → c ≠ Str.LF →
  Forall (λ l, l = "" ∨ nonblank l) (Str.split_lf (String c code)) →
  Str.dedent (String c code) = String c code.
Proof.
  intros Hb Hc Hlines.
  destruct (dedent_spec (String c code)) as (margin & -> & Hlow & _).
  destruct (split_lf_head c code Hc) as (l & ls & Hsplit).
  assert (margin = "") as ->.
  { apply startswith_nil_r.
    specialize (Hlow (String c l)). cbn [Str.indent_of] in Hlow.
    rewrite Hb in Hlow. apply Hlow.
    - rewrite Hsplit. by left.
    - unfold nonblank. cbn [Str.all_chars]. by rewrite Hb. }
  rewrite <- (join_split_lf (String c code)) at 2. f_equal.
  rewrite <- (map_id (Str.split_lf (String c code))) at 2.
  apply map_ext_in. intros x Hx%list_elem_of_In.
  rewrite Forall_forall in Hlines. unfold dedent_line.
  destruct (Hlines x Hx) as [->|Hnb]; [done|]. unfold nonblank in Hnb.
  by rewrite Hnb.
Qed.

Lemma normalize_unindented c code :
  Str.is_blank c = false → c ≠ Str.LF →
  Forall (λ l, l = "" ∨ nonblank l) (Str.split_lf (String c code)) →
  normalize (SrcStr (String c code)) = Some (String c code).
Proof.
  intros Hb Hc Hlines. unfold normalize, nonempty.
  rewrite bool_decide_eq_false_2 by done. cbn [negb Str.lstrip].
  unfold Str.is_LF. rewrite bool_decide_eq_false_2 by done.
  by rewrite dedent_unindented.
Qed.

Lemma no_blank_lines_check lines :
  forallb (λ l, bool_decide (l = "") || negb (Str.all_chars Str.is_blank l))
    lines = true →
  Forall (λ l, l = "" ∨ nonblank l) lines.
Proof.
  rewrite forallb_forall, Forall_forall. intros Hall l Hl%list_elem_of_In.
  apply Hall, orb_true_iff in Hl as [Hl|Hl].
  - left. by apply bool_decide_eq_true in Hl.
  - right. by apply negb_true_iff in Hl.
Qed.

(** X2. A body given as a string is stored as it is when it starts with
    a character that is neither a blank nor a newline and has no line
    made of blanks only. *)
Theorem unindented_body_is_stored_verbatim c code :
  Str.is_blank c = false → c ≠ Str.LF →
  Forall (λ l, l = "" ∨ nonblank l) (Str.split_lf (String c code)) →
  normalize (SrcStr (String c code)) = Some (String c code).
Proof. apply normalize_unindented. Qed.

(** The map function of the class documentation. *)
Lemma unindented_body_is_stored_verbatim_witness :
  let code := "function(doc) {
    emit(doc._id, null);
}" in
  normalize (SrcStr code) = Some code.
Proof.
  intros code. apply unindented_body_is_stored_verbatim.
  - vm_compute. reflexivity.
  - discriminate.
  - apply no_blank_lines_check. vm_compute. reflexivity.
Defined.

Lemma rstrip_all p ws : Str.all_chars p ws = true → Str.rstrip p ws = "".
Proof.
  induction ws as [|c ws IH]; [done|]. cbn [Str.all_chars Str.rstrip].
  intros [Hc Hws]%andb_true_iff. by rewrite IH, Hc.
Qed.

Lemma rstrip_app p s ws :
  Str.all_chars p ws = true → Str.rstrip p (s +:+ ws) = Str.rstrip p s.
Proof.
  intros Hws. induction s as [|c s IH]; simpl.
  - by apply rstrip_all.
  - by rewrite IH.
Qed.

Lemma rstrip_fixed_cons p c s :
  Str.rstrip p (String c s) = String c s →
  (s = "" ∧ p c = false) ∨ (s ≠ "" ∧ Str.rstrip p s = s).
Proof.
  cbn [Str.rstrip]. destruct (Str.rstrip p s) as [|c' r] eqn:E.
  - destruct (p c); [done|]. intros [= <-]. by left.
  - intros [= <-]. by right.
Qed.

Lemma splitlines_split_lf s :
  Str.all_chars not_CR s = true → s ≠ "" →
  Str.rstrip Str.is_whitespace s = s →
  Str.splitlines s = Str.split_lf s.
Proof.
  induction s as [|c s IH]; [done|].
  cbn [Str.all_chars]. intros [Hc Hs]%andb_true_iff _ Hr.
  cbn [Str.splitlines Str.split_lf].
  unfold not_CR in Hc. apply negb_true_iff, bool_decide_eq_false in Hc.
  rewrite (bool_decide_eq_false_2 (c = Str.CR)) by done.
  apply rstrip_fixed_cons in Hr as [[-> Hw]|[Hne Hr]].
  - case_bool_decide as Hlf; [|done]. by subst c.
  - by rewrite IH.
Qed.

Lemma strip_decorators_plain c code :
  Str.is_whitespace c = false → c ≠ "@"%char →
  Str.all_chars not_CR (String c code) = true →
  Str.rstrip Str.is_whitespace (String c code) = String c code →
  _strip_decorators (Str.rstrip Str.is_whitespace (String c code +:+ Str.NL))
    = String c code.
Proof.
  intros Hw Hat Hcr Hr.
  assert (c ≠ Str.LF) as Hlf by (by intros ->).
  unfold _strip_decorators. rewrite rstrip_app, Hr by done.
  rewrite splitlines_split_lf by done.
  destruct (split_lf_head c code Hlf) as (l & ls & Hsplit).
  rewrite <- (join_split_lf (String c code)) at 2. f_equal.
  rewrite Hsplit. apply (strip_loop_spec [] (String c l :: ls)); [done|].
  unfold Str.isspace, is_decorator. cbn [Str.all_chars Str.lstrip].
  rewrite Hw, andb_false_r. split; [done|]. cbn [Str.startswith].
  rewrite bool_decide_eq_false_2; [done|congruence].
Qed.

(** X3. The source of a function that has no decorator is stored as its
    text without the final newline, when that text starts at the first
    column, has no carriage return, no line of blanks only and no
    whitespace before the final newline. *)
Theorem plain_function_source_is_stored c code :
  Str.is_whitespace c = false → c ≠ "@"%char →
  Str.all_chars not_CR (String c code) = true →
  Str.rstrip Str.is_whitespace (String c code) = String c code →
  Forall (λ l, l = "" ∨ nonblank l) (Str.split_lf (String c code)) →
  normalize (SrcFunc (String c code +:+ Str.NL)) = Some (String c code).
Proof.
  intros Hw Hat Hcr Hr Hlines.
  change (normalize (SrcFunc (String c code +:+ Str.NL)))
    with (normalize (SrcStr (_strip_decorators
            (Str.rstrip Str.is_whitespace (String c code +:+ Str.NL))))).
  rewrite strip_decorators_plain by done.
  apply normalize_unindented; [|by intros ->|done].
  unfold Str.is_blank. apply orb_false_iff.
  split; apply bool_decide_eq_false; by intros ->.
Qed.

(** The Python map function of the class documentation. *)
Lemma plain_function_source_is_stored_witness :
  let code := "def my_map(doc):
    yield doc['somekey'], doc['somevalue']" in
  normalize (SrcFunc (code +:+ Str.NL)) = Some code.
Proof.
  intros code. apply plain_function_source_is_stored.
  - vm_compute. reflexivity.
  - discriminate.
  - vm_compute. reflexivity.
  - vm_compute. reflexivity.
  - apply no_blank_lines_check. vm_compute. reflexivity.
Defined.

(** ** Decorator lines *)

Lemma strip_loop_sublist b lines : sublist (strip_loop b lines) lines.
Proof.
  revert b. induction lines as [|line lines IH]; intros b; [constructor|].
  cbn [strip_loop]. destruct (b && negb (Str.isspace line));
    [destruct (is_decorator line)|]; by constructor.
Qed.

Lemma strip_loop_keeps b lines :
  sublist (List.filter (λ l, negb (is_decorator l)) lines) (strip_loop b lines).
Proof.
  revert b. induction lines as [|line lines IH]; intros b; [constructor|].
  cbn [strip_loop List.filter]. destruct (b && negb (Str.isspace line)).
  - destruct (is_decorator line); cbn [negb]; [apply IH|by constructor].
  - destruct (is_decorator line); cbn [negb]; by constructor.
Qed.

Lemma strip_loop_idempotent lines :
  strip_loop true (strip_loop true lines) = strip_loop true lines.
Proof.
  induction lines as [|line lines IH]; [done|]. cbn [strip_loop andb].
  destruct (Str.isspace line) eqn:Hs; cbn [negb].
  - cbn [strip_loop andb]. rewrite Hs. cbn [negb]. by rewrite IH.
  - destruct (is_decorator line) eqn:Hd; [done|].
    cbn [strip_loop andb]. rewrite Hs, Hd. cbn [negb].
    by rewrite !strip_loop_false.
Qed.

(** X4. The loop of [_strip_decorators] keeps the order of the lines,
    drops nothing but decorator lines, and finds nothing more to drop
    when it runs on its own result. *)
Theorem strip_loop_drops_only_decorators lines :
  sublist (strip_loop true lines) lines ∧
  sublist (List.filter (λ l, negb (is_decorator l)) lines)
          (strip_loop true lines) ∧
  strip_loop true (strip_loop true lines) = strip_loop true lines.
Proof.
  split_and!;
    [apply strip_loop_sublist|apply strip_loop_keeps|apply strip_loop_idempotent].
Qed.

(** X5. The empty line is not whitespace for [isspace]: it ends the
    decorator prefix like a line of code, and the decorator lines after
    it stay. *)
Theorem empty_line_ends_decorator_prefix pre rest :
  Forall (λ l, Str.isspace l = true ∨ is_decorator l = true) pre →
  strip_loop true (pre ++ "" :: rest) =
    List.filter (λ l, negb (is_decorator l)) pre ++ "" :: rest.
Proof. intros Hpre. by apply strip_loop_spec. Qed.

Lemma empty_line_ends_decorator_prefix_witness :
  strip_loop true (["@first"] ++ "" :: ["@second"; "def f(doc):"])
    = List.filter (λ l, negb (is_decorator l)) ["@first"]
        ++ "" :: ["@second"; "def f(doc):"].
Proof.
  apply empty_line_ends_decorator_prefix.
  constructor; [right; vm_compute; reflexivity|constructor].
Defined.

(** ** The subclasses *)

(** X6. The subclass initialisers pass their keyword arguments on to
    [DesignDefinition.__init__]: [ViewDefinition] raises the validation
    error exactly when its map body is [None] and no keyword [filter_fun]
    gives a filter body, [FilterDefinition] exactly when its filter body
    is [None] and no keyword [map_fun] gives a map body; the definition
    made has the normalised bodies, those given by keyword included, and
    a [ViewDefinition] has its wrapper. *)
Theorem subclass_constructors design name lang opts dflts :
  (∀ m r w f,
     ViewDefinition_init design name m r lang w opts f dflts
       = Raise AssertionError ↔ m = SrcNone ∧ f = SrcNone) ∧
  (∀ m r w f view,
     ViewDefinition_init design name m r lang w opts f dflts = OK view →
     map_fun view = normalize m ∧ reduce_fun view = normalize r ∧
     filter_fun view = normalize f ∧ wrapper view = w) ∧
  (∀ f m r,
     FilterDefinition_init design name f lang opts m r dflts
       = Raise AssertionError ↔ m = SrcNone ∧ f = SrcNone) ∧
  (∀ f m r view,
     FilterDefinition_init design name f lang opts m r dflts = OK view →
     map_fun view = normalize m ∧ reduce_fun view = normalize r ∧
     filter_fun view = normalize f).
Proof.
  split_and!.
  - intros m r w f. unfold ViewDefinition_init.
    rewrite <- (init_raises_iff design name m r lang opts f dflts).
    destruct (DesignDefinition_init _ _ _ _ _ _ _ _);
      cbn [mbind result_bind]; split; congruence.
  - intros m r w f view. unfold ViewDefinition_init, DesignDefinition_init.
    destruct (_ && _); [done|]. cbn [mbind result_bind]. by intros [= <-].
  - intros f m r. unfold FilterDefinition_init. apply init_raises_iff.
  - intros f m r view. unfold FilterDefinition_init, DesignDefinition_init.
    destruct (_ && _); [done|]. by intros [= <-].
Qed.

(** A [ViewDefinition] without map body, given a filter body by keyword. *)
Lemma subclass_constructors_witness :
  ∃ view,
    ViewDefinition_init "tests" "all" SrcNone SrcNone "javascript" VNone VNone
      (SrcStr "function(doc,req){return true;}") ∅ = OK view ∧
    map_fun view = normalize SrcNone ∧
    reduce_fun view = normalize SrcNone ∧
    filter_fun view = normalize (SrcStr "function(doc,req){return true;}") ∧
    wrapper view = VNone.
Proof.
  destruct (result_check
              (ViewDefinition_init "tests" "all" SrcNone SrcNone "javascript"
                 VNone VNone (SrcStr "function(doc,req){return true;}") ∅)
              (λ _, true))
    as (view & Hview & _); [vm_compute; reflexivity|].
  exists view. split; [exact Hview|].
  exact (proj1 (proj2 (subclass_constructors "tests" "all" "javascript"
                         VNone ∅))
           SrcNone SrcNone VNone (SrcStr "function(doc,req){return true;}")
           view Hview).
Defined.

(** ** The options of a query *)

(** X7. The options a view is queried with have the keys of the call,
    the keys of the defaults and [wrapper], and no other key. *)
Theorem call_option_keys (self : ViewDefinition) (opts : gmap string value) :
  dom (ViewDefinition_call self opts).2
    = dom opts ∪ dom (defaults self) ∪ {[ "wrapper" ]}.
Proof.
  unfold ViewDefinition_call. cbn [snd]. case_bool_decide as Hw.
  - rewrite dom_union_L in *. set_solver.
  - rewrite dom_insert_L, dom_union_L. set_solver.
Qed.

(** ** What [sync_many] can raise *)

Lemma section_ok_dec s d : section_ok s d ∨ ¬ section_ok s d.
Proof. unfold section_ok. destruct (d !! s) as [[]|]; auto. Qed.

Lemma section_keys_bad s d :
  ¬ section_ok s d → section_keys s d = Raise AttributeError.
Proof.
  unfold section_ok, section_keys. by destruct (d !! s) as [[]|].
Qed.

Lemma sync_doc_bad_sections rm d views :
  ¬ (section_ok "views" d ∧ section_ok "filters" d) →
  sync_doc rm d views = Raise AttributeError.
Proof.
  intros Hbad. unfold sync_doc, sync_start.
  destruct (section_ok_dec "views" d) as [Hv|Hv].
  - rewrite (section_keys_ok "views") by done. cbn [mbind result_bind].
    rewrite (section_keys_bad "filters"); [done|]. tauto.
  - by rewrite (section_keys_bad "views").
Qed.

Lemma set_add_nonempty v s : set_add v s ≠ [].
Proof.
  unfold set_add. destruct (existsb _ _) eqn:E.
  - intros ->. done.
  - by destruct s.
Qed.

Lemma sync_language_raises st e :
  sync_language st = Raise e →
  (e = IndexError ∧ languages st = []) ∨
  (e = ValueError (languages st) ∧ 1 < List.length (languages st)).
Proof.
  unfold sync_language. destruct (languages st) as [|l [|l' ls]]; [|done|].
  - intros [= <-]. by left.
  - intros [= <-]. right. split; [done|]. simpl. lia.
Qed.

Lemma sync_doc_good_sections_raise rm d views e :
  section_ok "views" d → section_ok "filters" d →
  sync_doc rm d views = Raise e →
  (e = TypeError ∧ rm = false ∧
   ∃ lang, d !! "language" = Some lang ∧ hashable lang = false) ∨
  (e = IndexError ∧ views = []) ∨
  (∃ langs, e = ValueError langs ∧ 1 < List.length langs).
Proof.
  intros Hv Hf. rewrite sync_doc_accumulate, accumulate_eval by done.
  pose proof (candidates_ok_run _ views (candidates_ok_start d Hv Hf)) as Hst.
  pose proof (languages_run_start d views) as Hlang.
  assert (∀ st, languages st = languages_of views ∨
                (∃ l, languages st = set_add l (languages_of views)) →
          sync_language st = Raise e →
          (e = IndexError ∧ views = []) ∨
          (∃ langs, e = ValueError langs ∧ 1 < List.length langs)) as Hend.
  { intros st Hst' [[-> Hl]|[-> Hl]]%sync_language_raises; [|eauto].
    left. split; [done|]. destruct Hst' as [Hs|[l Hs]]; rewrite Hs in Hl.
    - destruct views; [done|]. by apply languages_of_nonempty in Hl.
    - by apply set_add_nonempty in Hl. }
  destruct rm.
  - destruct (sync_missing_true_ok _ Hst) as (st' & -> & Hl & _).
    cbn [mbind result_bind]. intros He. right. eapply Hend; [|exact He].
    left. by rewrite Hl.
  - rewrite sync_missing_false_spec, doc_run_other by done.
    change (doc (start d)) with d.
    destruct (d !! "language") as [lang|] eqn:El.
    + case_bool_decide.
      * cbn [mbind result_bind]. intros He. right. eapply Hend; [|exact He].
        by left.
      * destruct (hashable lang) eqn:Eh.
        -- cbn [mbind result_bind]. intros He. right. eapply Hend; [|exact He].
           right. exists lang. cbn [languages]. by rewrite Hlang.
        -- cbn [mbind result_bind]. intros [= <-]. left. eauto.
    + cbn [mbind result_bind]. intros He. right. eapply Hend; [|exact He].
      by left.
Qed.

Lemma queue_raise cb od e :
  queue cb od = Raise e → ∃ f d, cb = Some f ∧ f d = Raise e.
Proof.
  destruct od as [d|]; [|done]. destruct cb as [f|]; [|done]. cbn [queue].
  destruct (f d) as [d'|e'] eqn:E; [done|]. cbn [mbind result_bind].
  intros [= ->]. eauto.
Qed.

Lemma sync_groups_raise_inv db rm cb gs e :
  sync_groups db rm cb gs = Raise e →
  (∃ g, g ∈ gs ∧ sync_doc rm (fetch db g.1) g.2 = Raise e) ∨
  (∃ f d, cb = Some f ∧ f d = Raise e).
Proof.
  induction gs as [|g gs IH]; [done|]. cbn [sync_groups].
  destruct (sync_group db rm cb g) as [o|e'] eqn:Eg.
  - cbn [mbind result_bind].
    destruct (sync_groups db rm cb gs) as [os|e'']; [done|].
    cbn [mbind result_bind]. intros [= ->].
    destruct IH as [(g' & Hg' & He)|Hcb]; [done| |by right].
    left. exists g'. split; [by right|done].
  - cbn [mbind result_bind]. intros [= ->].
    unfold sync_group, merge_group in Eg.
    destruct (sync_doc rm (fetch db g.1) g.2) as [d|e0] eqn:Ed;
      cbn [mbind result_bind] in Eg.
    + right. by eapply queue_raise.
    + injection Eg as ->. left. exists g. split; [by left|done].
Qed.

(** X8. [sync_many] raises nothing but an [AttributeError], for a stored
    section that is no dictionary, a [TypeError], without removal, for a
    stored language that cannot be a member of a set, the conflict
    error, which carries at least two languages, and what the callback
    raises: the deletions never miss their key and the language set of
    a group is never empty. *)
Theorem sync_many_raises_only db views rm cb e :
  sync_many db views rm cb = Raise e →
  e = AttributeError ∨ (e = TypeError ∧ rm = false) ∨
  (∃ langs, e = ValueError langs ∧ 1 < List.length langs) ∨
  (∃ f d, cb = Some f ∧ f d = Raise e).
Proof.
  unfold sync_many.
  intros [([k g] & Hg & He)|Hcb]%sync_groups_raise_inv; [|by auto].
  cbn [fst snd] in He. apply groupby_groups in Hg as [Hne _].
  destruct (section_ok_dec "views" (fetch db k)) as [Hv|Hv];
    [destruct (section_ok_dec "filters" (fetch db k)) as [Hf|Hf]|].
  - apply sync_doc_good_sections_raise in He
      as [(-> & -> & _)|[[_ ->]|?]]; auto. done.
  - rewrite sync_doc_bad_sections in He by tauto. injection He as <-. auto.
  - rewrite sync_doc_bad_sections in He by tauto. injection He as <-. auto.
Qed.

(** A stored design document whose views are a list. *)
Lemma sync_many_raises_only_witness :
  let view := {| design := "tests"; name := "all"; map_fun := Some "function(doc){}";
                 reduce_fun := None; filter_fun := None; language := "javascript";
                 options := VNone; defaults := ∅ |} in
  let db : database := {[ "_design/tests" := {[ "views" := VList [] ]} ]} in
  sync_many db [view] false None = Raise AttributeError ∧
  (AttributeError = AttributeError ∨ (AttributeError = TypeError ∧ false = false) ∨
   (∃ langs, AttributeError = ValueError langs ∧ 1 < List.length langs) ∨
   (∃ f d, (None : callback_fun) = Some f ∧ f d = Raise AttributeError)).
Proof.
  intros view db.
  assert (sync_many db [view] false None = Raise AttributeError) as He.
  { vm_compute. reflexivity. }
  split; [exact He|].
  exact (sync_many_raises_only db [view] false None AttributeError He).
Defined.

(** X9. A group raises [AttributeError] exactly when the fetched document
    has a [views] or [filters] field that is no dictionary; this is found
    before any definition is looked at. *)
Theorem malformed_section_raises rm d views :
  sync_doc rm d views = Raise AttributeError ↔
    ¬ (section_ok "views" d ∧ section_ok "filters" d).
Proof.
  split; [|apply sync_doc_bad_sections].
  intros He [Hv Hf].
  apply sync_doc_good_sections_raise in He
    as [([=] & _)|[[[=] _]|(l & [=] & _)]]; done.
Qed.

(** ** The language of the stored document *)

Lemma languages_of_same views lang :
  views ≠ [] → Forall (λ view, language view = lang) views →
  languages_of views = [VStr lang].
Proof.
  induction views as [|view views IH] using rev_ind; [done|].
  intros _ [Hall Hv]%Forall_app. apply Forall_inv in Hv.
  cbn beta in Hv. rewrite languages_of_snoc, Hv. destruct views as [|v vs]; [done|].
  rewrite IH by done. apply set_add_in. by left.
Qed.

(** X10. When removal is requested, or when the definitions write every
    entry the stored document has, a group whose definitions have one
    language succeeds on a stored document with well-shaped sections
    and gives it that language, whatever language was stored. *)
Theorem stored_language_is_replaced rm d views lang :
  section_ok "views" d → section_ok "filters" d →
  views ≠ [] → Forall (λ view, language view = lang) views →
  rm = true ∨ ¬ candidate_remains d views →
  ∃ d', sync_doc rm d views = OK d' ∧ d' !! "language" = Some (VStr lang).
Proof.
  intros Hv Hf Hne Hall Hrm.
  pose proof (languages_of_same views lang Hne Hall) as Hl.
  assert (∃ st, accumulate rm d views = OK st ∧
                languages st = languages_of views) as (st & Hacc & Hst).
  { rewrite accumulate_eval by done.
    pose proof (candidates_ok_run _ views (candidates_ok_start d Hv Hf)) as Hok.
    destruct rm.
    - destruct (sync_missing_true_ok _ Hok) as (st & -> & Hls & _).
      exists st. split; [done|]. by rewrite Hls, languages_run_start.
    - destruct Hrm as [|Hno]; [done|].
      rewrite sync_missing_false_spec.
      apply (candidate_remains_iff d views Hv Hf) in Hno.
      rewrite (bool_decide_eq_true_2 _ Hno).
      eexists. split; [by destruct (doc _ !! "language")|].
      apply languages_run_start. }
  exists (<["language" := VStr lang]> (doc st)). split.
  - rewrite sync_doc_accumulate, Hacc. cbn [mbind result_bind].
    apply sync_language_inv. exists (VStr lang). by rewrite Hst, Hl.
  - apply lookup_insert_eq.
Qed.

(** A stored Python view replaced by a JavaScript one of the same name. *)
Lemma stored_language_is_replaced_witness :
  let view := {| design := "tests"; name := "a"; map_fun := Some "function(doc){}";
                 reduce_fun := None; filter_fun := None; language := "javascript";
                 options := VNone; defaults := ∅ |} in
  let d : document :=
    {[ "_id" := VStr "_design/tests"; "language" := VStr "python";
       "views" := VDict {[ "a" := VDict {[ "map" := VStr "def fun(doc): pass" ]} ]} ]} in
  ∃ d', sync_doc false d [view] = OK d' ∧
        d' !! "language" = Some (VStr "javascript").
Proof.
  intros view d. apply stored_language_is_replaced.
  - exact I.
  - exact I.
  - discriminate.
  - repeat constructor.
  - right. intros (s & n & Hs & [x Hx] & Hlast).
    destruct Hs as [-> | ->]; vm_compute in Hx.
    + destruct (decide (n = "a")) as [->|Hn].
      * vm_compute in Hlast. discriminate Hlast.
      * change (({[ "a" := VDict {[ "map" := VStr "def fun(doc): pass" ]} ]}
                 : gmap string value) !! n = Some x) in Hx.
        by rewrite lookup_singleton_ne in Hx.
    + discriminate Hx.
Defined.

(** ** The documents that are submitted *)

Lemma merge_group_some db rm g d :
  merge_group db rm g = OK (Some d) →
  sync_doc rm (fetch db g.1) g.2 = OK d ∧ d ≠ fetch db g.1.
Proof.
  unfold merge_group.
  destruct (sync_doc rm (fetch db g.1) g.2) as [d'|] eqn:E; [|done].
  cbn [mbind result_bind]. destruct (doc_eqb d' (fetch db g.1)) eqn:Heq; [done|].
  intros [= <-]. split; [done|]. intros Hd. apply doc_eqb_spec in Hd. congruence.
Qed.

(** What the callback, if there is one, makes of a document. *)
Lemma queue_inv cb od o :
  queue cb od = OK o →
  match od with
  | Some d =>
      ∃ d', match cb with Some f => f d = OK d' | None => d' = d end ∧
            o = {| notified := match cb with Some _ => [d] | None => [] end;
                   submitted := [d'] |}
  | None => o = {| notified := []; submitted := [] |}
  end.
Proof.
  destruct od as [d|]; [|by intros [= <-]]. destruct cb as [f|]; cbn [queue].
  - destruct (f d) as [d'|]; [|done]. cbn [mbind result_bind].
    intros [= <-]. by exists d'.
  - intros [= <-]. by exists d.
Qed.

Lemma sync_groups_inv db rm cb gs out :
  sync_groups db rm cb gs = OK out →
  List.length (submitted out) ≤ List.length gs ∧
  (∀ d', d' ∈ submitted out →
     ∃ g d, g ∈ gs ∧ merge_group db rm g = OK (Some d) ∧
            match cb with Some f => f d = OK d' | None => d' = d end) ∧
  (∀ d, d ∈ notified out →
     is_Some cb ∧ ∃ g, g ∈ gs ∧ merge_group db rm g = OK (Some d)).
Proof.
  revert out. induction gs as [|g gs IH]; intros out.
  { intros [= <-]. cbn [notified submitted].
    split_and!; [done|by intros ? ?%elem_of_nil..]. }
  cbn [sync_groups]. unfold sync_group.
  destruct (merge_group db rm g) as [od|] eqn:Eg; [|done].
  cbn [mbind result_bind]. destruct (queue cb od) as [o|] eqn:Eq; [|done].
  cbn [mbind result_bind].
  destruct (sync_groups db rm cb gs) as [os|]; [|done].
  cbn [mbind result_bind]. intros [= <-]. cbn [notified submitted].
  destruct (IH os eq_refl) as (Hlen & Hsub & Hnot).
  apply queue_inv in Eq. split_and!.
  - rewrite length_app. cbn [List.length].
    destruct od as [d|]; [destruct Eq as (d' & _ & ->)|subst o]; simpl; lia.
  - intros d' [Hd|Hd]%elem_of_app.
    + destruct od as [d|]; [|subst o; by apply elem_of_nil in Hd].
      destruct Eq as (d'' & Hcb & ->). cbn [submitted] in Hd.
      apply list_elem_of_singleton in Hd as ->.
      exists g, d. split_and!; [by left|done|done].
    + destruct (Hsub d' Hd) as (g' & d & Hg' & Hm & Hcb).
      exists g', d. split_and!; [by right|done|done].
  - intros d [Hd|Hd]%elem_of_app.
    + destruct od as [d0|]; [|subst o; by apply elem_of_nil in Hd].
      destruct Eq as (d'' & Hcb & ->). cbn [notified] in Hd.
      destruct cb as [f|]; [|by apply elem_of_nil in Hd].
      apply list_elem_of_singleton in Hd as ->.
      split; [done|]. exists g. split; [by left|done].
    + destruct (Hnot d Hd) as (Hcb & g' & Hg' & Hm).
      split; [done|]. exists g'. split; [by right|done].
Qed.

(** X11. Every document [sync_many] submits is the merged document of one
    of the groups, as the callback, if there is one, has left it; that
    merged document differs from the document fetched for the group; the
    documents the callback is called with are such merged documents; and
    no group submits more than one document. *)
Theorem only_changed_documents_are_submitted db views rm cb out :
  sync_many db views rm cb = OK out →
  List.length (submitted out) ≤ List.length (groupby views) ∧
  (∀ d', d' ∈ submitted out →
     ∃ k g d, (k, g) ∈ groupby views ∧
              sync_doc rm (fetch db k) g = OK d ∧ d ≠ fetch db k ∧
              match cb with Some f => f d = OK d' | None => d' = d end) ∧
  (∀ d, d ∈ notified out →
     is_Some cb ∧
     ∃ k g, (k, g) ∈ groupby views ∧
            sync_doc rm (fetch db k) g = OK d ∧ d ≠ fetch db k).
Proof.
  unfold sync_many. intros (Hlen & Hsub & Hnot)%sync_groups_inv.
  split_and!; [done| |].
  - intros d' Hd'. destruct (Hsub d' Hd') as ([k g] & d & Hg & Hm & Hcb).
    apply merge_group_some in Hm as [Hd Hne]. by exists k, g, d.
  - intros d Hd. destruct (Hnot d Hd) as (Hcb & [k g] & Hg & Hm).
    apply merge_group_some in Hm as [Hd' Hne]. split; [done|]. by exists k, g.
Qed.

(** A view of a design document the database does not have, and a
    callback that stamps the document. *)
Lemma only_changed_documents_are_submitted_witness :
  let view := {| design := "tests"; name := "all"; map_fun := Some "function(doc){}";
                 reduce_fun := None; filter_fun := None; language := "javascript";
                 options := VNone; defaults := ∅ |} in
  let stamp : document → result document :=
    λ d, OK (<["stamp" := VNum 1]> d) in
  ∃ out, sync_many ∅ [view] false (Some stamp) = OK out ∧
         List.length (submitted out) ≤ List.length (groupby [view]) ∧
         ∀ d', d' ∈ submitted out →
           ∃ k g d, (k, g) ∈ groupby [view] ∧
                    sync_doc false (fetch ∅ k) g = OK d ∧ d ≠ fetch ∅ k ∧
                    stamp d = OK d'.
Proof.
  intros view stamp.
  destruct (result_check (sync_many ∅ [view] false (Some stamp)) (λ _, true))
    as (out & Hout & _); [vm_compute; reflexivity|].
  exists out. split; [exact Hout|].
  destruct (only_changed_documents_are_submitted ∅ [view] false (Some stamp)
              out Hout) as (Hlen & Hsub & _).
  split; [exact Hlen|exact Hsub].
Defined.

(** X12. A document that is handed to the callback, or that is submitted
    by a call without a callback or with one that leaves the documents
    as they are, has the id of its design document and, in every field
    other than [views], [filters] and [language], what the fetched
    document has there: its revision and the other functions of the
    design document are passed on untouched. *)
Theorem other_fields_are_kept db views rm cb out d :
  sync_many db views rm cb = OK out →
  d ∈ notified out ∨ (observer cb ∧ d ∈ submitted out) →
  ∃ k, k ∈ (groupby views).*1 ∧
       d !! "_id" = Some (VStr (design_id k)) ∧
       ∀ field, field ≠ "views" → field ≠ "filters" → field ≠ "language" →
                d !! field = fetch db k !! field.
Proof.
  unfold sync_many. intros (_ & Hsub & Hnot)%sync_groups_inv Hd.
  assert (∃ g, g ∈ groupby views ∧ merge_group db rm g = OK (Some d))
    as ([k g] & Hg & Hm).
  { destruct Hd as [Hd|[Hobs Hd]]; [by apply Hnot|].
    destruct (Hsub d Hd) as (g & d0 & Hg & Hm & Hcb). exists g.
    split; [done|]. destruct cb as [f|]; [|by subst].
    rewrite (Hobs f eq_refl d0) in Hcb. by injection Hcb as <-. }
  apply merge_group_some in Hm as [Hs _]. cbn [fst snd] in Hs.
  exists k. split_and!.
  - apply list_elem_of_fmap. by exists (k, g).
  - erewrite (sync_doc_keeps _ _ _ _ "_id"); [apply fetch_id|done..].
  - intros field ???. by eapply sync_doc_keeps.
Qed.

(** A stored design document with a validation function. *)
Lemma other_fields_are_kept_witness :
  let view := {| design := "tests"; name := "all"; map_fun := Some "function(doc){}";
                 reduce_fun := None; filter_fun := None; language := "javascript";
                 options := VNone; defaults := ∅ |} in
  let db : database :=
    {[ "_design/tests" :=
         {[ "_rev" := VNum 3;
            "validate_doc_update" := VStr "function(n,o,u){}" ]} ]} in
  ∃ out d, sync_many db [view] false None = OK out ∧ d ∈ submitted out ∧
           ∃ k, k ∈ (groupby [view]).*1 ∧
                d !! "_id" = Some (VStr (design_id k)) ∧
                ∀ field, field ≠ "views" → field ≠ "filters" →
                         field ≠ "language" →
                         d !! field = fetch db k !! field.
Proof.
  intros view db.
  destruct (result_check (sync_many db [view] false None)
              (λ out, match submitted out with [_] => true | _ => false end))
    as (out & Hout & Hd); [vm_compute; reflexivity|].
  destruct (submitted out) as [|d [|??]] eqn:Hsub; try discriminate Hd.
  exists out, d. split; [exact Hout|].
  assert (d ∈ submitted out) as Hin by (rewrite Hsub; by left).
  split; [exact Hin|].
  apply (other_fields_are_kept db [view] false None out d Hout).
  right. split; [|exact Hin]. intros f Hf. discriminate Hf.
Defined.

(** X13. A field other than [views], [filters] and [language] has no
    part in the merge of a group: with the field set in the fetched
    document the group raises the same error or gives the same document
    with the field set. *)
Theorem other_fields_are_not_read k x rm d views :
  k ≠ "views" → k ≠ "filters" → k ≠ "language" →
  sync_doc rm (<[k := x]> d) views
    = result_map (insert k x) (sync_doc rm d views).
Proof. intros. by apply sync_doc_frame. Qed.

Lemma other_fields_are_not_read_witness :
  let view := {| design := "tests"; name := "all"; map_fun := Some "function(doc){}";
                 reduce_fun := None; filter_fun := None; language := "javascript";
                 options := VNone; defaults := ∅ |} in
  let d : document := {[ "_id" := VStr "_design/tests" ]} in
  sync_doc false (<["_rev" := VNum 7]> d) [view]
    = result_map (insert "_rev" (VNum 7)) (sync_doc false d [view]).
Proof.
  intros view d. apply other_fields_are_not_read; discriminate.
Defined.

(** ** The database after a call *)

(** What a group finds in the database after the call: its merged
    document, with a new revision when it was submitted. *)
Lemma fetch_after_sync db rm gs docs g :
  NoDup gs.*1 → changed_docs db rm gs = OK docs → g ∈ gs →
  ∃ d', sync_doc rm (fetch db g.1) g.2 = OK d' ∧
        (fetch (db_update db docs) g.1 = d' ∨
         ∃ r, fetch (db_update db docs) g.1 = <["_rev" := r]> d').
Proof.
  intros Hnd Hdocs Hg.
  apply list_elem_of_split in Hg as (gs1 & gs2 & ->).
  rewrite fmap_app, fmap_cons in Hnd.
  apply NoDup_app in Hnd as (_ & Hk1 & [Hk2 _]%NoDup_cons).
  rewrite changed_docs_app in Hdocs. cbn [changed_docs] in Hdocs.
  destruct (changed_docs db rm gs1) as [d1|] eqn:E1; [|done].
  destruct (merge_group db rm g) as [od|] eqn:Eg; [|done].
  destruct (changed_docs db rm gs2) as [d2|] eqn:E2; [|done].
  cbn [mbind result_bind] in Hdocs. injection Hdocs as <-.
  set (doc_id := design_id g.1).
  assert (db_update db d1 !! doc_id = db !! doc_id) as Hd1.
  { apply db_update_other. eapply docs_of_other_groups; [|done].
    intros Hin. by apply (Hk1 g.1); [|left]. }
  assert (∀ db', db_update db' d2 !! doc_id = db' !! doc_id) as Hd2.
  { intros db'. apply db_update_other. by eapply docs_of_other_groups. }
  rewrite !db_update_app. apply merge_group_inv in Eg.
  destruct od as [d|].
  - destruct Eg as (Hd & Hid & Hrev). change (option_list (Some d)) with [d].
    exists d. split; [done|]. right. exists (next_rev (d !! "_rev")).
    unfold fetch, db_get. fold doc_id. rewrite Hd2.
    unfold db_update at 1. cbn [foldl].
    rewrite (db_put_same _ d doc_id) by (by rewrite ?Hd1).
    apply insert_id. by rewrite lookup_insert_ne.
  - change (db_update (db_update db d1) (option_list None))
      with (db_update db d1).
    exists (fetch db g.1). split; [done|]. left.
    apply fetch_ext. fold doc_id. by rewrite Hd2, Hd1.
Qed.

(** X14. After a call that returned, on an input that has the
    definitions of every design document in one run, the stored design
    documents match the definitions: each has the language of its
    definitions, every entry a definition names holds what the last such
    definition gives, and every other entry is gone with removal and as
    before without; the call is one without a callback, or with one that
    leaves the documents as they are handed to it. *)
Theorem stored_documents_match_definitions db views rm cb db1 :
  observer cb →
  NoDup (groupby views).*1 →
  sync_many_db db views rm cb = OK db1 →
  ∀ k g, (k, g) ∈ groupby views →
    (∀ view, view ∈ g →
       fetch db1 k !! "language" = Some (VStr (language view))) ∧
    ∀ s, s = "views" ∨ s = "filters" →
    ∀ n, section_of s (fetch db1 k) !! n =
           match last_entry s n g with
           | Some v => Some v
           | None => if rm then None else section_of s (fetch db k) !! n
           end.
Proof.
  intros Hobs Hnd Hdb k g Hg. unfold sync_many_db in Hdb.
  rewrite sync_many_observer in Hdb by done.
  destruct (changed_docs db rm (groupby views)) as [docs|] eqn:Hdocs; [|done].
  cbn [mbind result_bind submitted] in Hdb. injection Hdb as <-.
  destruct (fetch_after_sync _ _ _ _ _ Hnd Hdocs Hg) as (d' & Hd' & Hfetch).
  cbn [fst snd] in *.
  destruct (sync_doc_facts _ _ _ _ Hd') as (_ & Hsec & lang & Hl & Hall & _).
  assert (fetch (db_update db docs) k !! "language" = Some lang ∧
          ∀ s, s = "views" ∨ s = "filters" →
               section_of s (fetch (db_update db docs) k) = section_of s d')
    as [Hlang Hsame].
  { destruct Hfetch as [->|[r ->]]; [done|]. split.
    - by rewrite lookup_insert_ne.
    - intros s [-> | ->]; by rewrite section_of_insert_ne. }
  split.
  - intros view Hview. rewrite Hlang. f_equal. symmetry. apply Hall.
    apply languages_of_elem. eauto.
  - intros s Hs n. rewrite Hsame by done. by apply Hsec.
Qed.

(** Two views stored, one of them replaced with removal requested. *)
Lemma stored_documents_match_definitions_witness :
  let view := {| design := "tests"; name := "a"; map_fun := Some "function(doc){}";
                 reduce_fun := None; filter_fun := None; language := "javascript";
                 options := VNone; defaults := ∅ |} in
  let old := VDict {[ "map" := VStr "function(doc){emit(1,1);}" ]} in
  let db : database :=
    {[ "_design/tests" := {[ "views" := VDict {[ "a" := old; "b" := old ]} ]} ]} in
  ∃ db1, sync_many_db db [view] true None = OK db1 ∧
         section_of "views" (fetch db1 "tests") !! "b" = None.
Proof.
  intros view old db.
  destruct (result_check (sync_many_db db [view] true None) (λ _, true))
    as (db1 & Hdb1 & _); [vm_compute; reflexivity|].
  assert (observer None) as Hobs by (intros f Hf; discriminate Hf).
  exists db1. split; [exact Hdb1|].
  assert (NoDup (groupby [view]).*1) as Hnd.
  { vm_compute. repeat constructor. intros Hin. by apply elem_of_nil in Hin. }
  destruct (stored_documents_match_definitions db [view] true None db1
              Hobs Hnd Hdb1 "tests" [view]) as [_ Hsec].
  { by left. }
  rewrite (Hsec "views" (or_introl eq_refl) "b"). vm_compute. reflexivity.
Defined.

Lemma build_funcs_map view code :
  body (map_fun view) = Some code →
  build_funcs view !! "map" = Some (VStr code).
Proof.
  intros Hm. unfold build_funcs. rewrite Hm.
  destruct (truthy (options view)), (body (reduce_fun view));
    repeat (rewrite lookup_insert_ne by done); apply lookup_insert_eq.
Qed.

(** X15. For a definition whose design document the database does not
    have, [get_doc] gives [None]; [sync] then returns, and [get_doc]
    gives a document with the id of the design document, the language of
    the definition and the entry of the definition under its name: for a
    view with a non-empty map body a function bundle with that body
    under [map]. *)
Theorem sync_then_get_doc self db :
  db !! design_id (design self) = None →
  get_doc self db = None ∧
  ∃ db1 d,
    sync_db self db = OK db1 ∧ get_doc self db1 = Some d ∧
    d !! "_id" = Some (VStr (design_id (design self))) ∧
    d !! "language" = Some (VStr (language self)) ∧
    section_of (entry_of self).1 d !! name self = Some (entry_of self).2 ∧
    ∀ code, body (filter_fun self) = None → body (map_fun self) = Some code →
            section_of "views" d !! name self = Some (VDict (build_funcs self)) ∧
            build_funcs self !! "map" = Some (VStr code).
Proof.
  intros Hdb. split; [unfold get_doc; cbv zeta; by rewrite Hdb|].
  set (doc_id := design_id (design self)) in *.
  assert (fetch db (design self) = {[ "_id" := VStr doc_id ]}) as Hfetch.
  { unfold fetch, db_get. fold doc_id. by rewrite Hdb. }
  destruct (sync_doc_ok false {[ "_id" := VStr doc_id ]} [self] (language self))
    as (st & _ & Hd); [done|done|done|by left|].
  set (d' := <["language" := VStr (language self)]> (doc st)) in *.
  destruct (sync_doc_facts _ _ _ _ Hd) as (Ho & Hsec & _).
  assert (d' !! "_id" = Some (VStr doc_id)) as Hid.
  { rewrite Ho by done. apply lookup_singleton_eq. }
  assert (d' !! "_rev" = None) as Hrev.
  { rewrite Ho by done. by apply lookup_singleton_ne. }
  assert (sync_db self db
          = OK (<[doc_id := <["_rev" := VNum 1]> d']> db)) as Hsync.
  { unfold sync_db, sync_many_db, sync_many. cbn [groupby sync_groups].
    unfold sync_group, merge_group. cbn [fst snd]. rewrite Hfetch, Hd.
    cbn [mbind result_bind].
    destruct (doc_eqb d' _) eqn:Heq.
    { apply doc_eqb_spec in Heq.
      apply (f_equal (λ m, m !! "language")) in Heq.
      unfold d' in Heq. by rewrite lookup_insert_eq in Heq. }
    cbn [mbind result_bind queue submitted app].
    unfold db_update. cbn [foldl]. unfold db_put. rewrite Hid.
    rewrite Hdb, Hrev. done. }
  eexists _, _. split; [exact Hsync|]. unfold get_doc. cbv zeta. fold doc_id.
  rewrite lookup_insert_eq. split; [done|].
  assert (∀ s, s = "views" ∨ s = "filters" →
            section_of s (<["_id" := VStr doc_id]> (<["_rev" := VNum 1]> d'))
            = section_of s d') as Hsame.
  { intros s [-> | ->]; by rewrite !section_of_insert_ne. }
  assert (section_of (entry_of self).1 d' !! name self
          = Some (entry_of self).2) as Hentry.
  { destruct (Hsec (entry_of self).1 (entry_of_section self))
      as (_ & _ & _ & Hn).
    rewrite Hn, last_entry_single. by rewrite bool_decide_eq_true_2. }
  split_and!.
  - apply lookup_insert_eq.
  - rewrite !lookup_insert_ne by done. apply lookup_insert_eq.
  - by rewrite Hsame by apply entry_of_section.
  - intros code Hf Hm. split; [|by apply build_funcs_map].
    rewrite Hsame by (by left). rewrite (entry_of_view self Hf) in Hentry.
    exact Hentry.
Qed.

(** The first example of the class documentation. *)
Lemma sync_then_get_doc_witness :
  let view := {| design := "tests"; name := "all";
                 map_fun := Some "function(doc) {
    emit(doc._id, null);
}";
                 reduce_fun := None; filter_fun := None; language := "javascript";
                 options := VNone; defaults := ∅ |} in
  get_doc view ∅ = None ∧
  ∃ db1 d, sync_db view ∅ = OK db1 ∧ get_doc view db1 = Some d ∧
           d !! "language" = Some (VStr "javascript").
Proof.
  intros view.
  destruct (sync_then_get_doc view ∅) as [Hnone (db1 & d & H1 & H2 & _ & H3 & _)].
  - reflexivity.
  - split; [exact Hnone|]. exists db1, d. auto.
Defined.

(** ** Definitions of one design document *)

Lemma groupby_one_design k views :
  views ≠ [] → Forall (λ view, design view = k) views →
  groupby views = [(k, views)].
Proof.
  induction views as [|view views IH]; [done|].
  intros _ [Hv Hall]%Forall_cons. rewrite groupby_cons.
  destruct views as [|v vs]; [by rewrite <- Hv|].
  rewrite IH by done. by rewrite bool_decide_eq_true_2.
Qed.

(** X16. Definitions that all belong to one design document are one
    group: [sync_many] merges them into one fetched document and, if
    that has changed, hands this one document to the callback, if there
    is one, and submits it as the callback has left it. *)
Theorem one_design_document_one_group db k views rm cb :
  views ≠ [] → Forall (λ view, design view = k) views →
  groupby views = [(k, views)] ∧
  sync_many db views rm cb =
    d ← sync_doc rm (fetch db k) views;
    queue cb (if doc_eqb d (fetch db k) then None else Some d).
Proof.
  intros Hne Hall. pose proof (groupby_one_design k views Hne Hall) as Hg.
  split; [done|]. unfold sync_many. rewrite Hg. cbn [sync_groups].
  unfold sync_group, merge_group. cbn [fst snd].
  destruct (sync_doc rm (fetch db k) views) as [d|]; [|done].
  cbn [mbind result_bind].
  destruct (queue cb _) as [[ns ss]|]; [|done].
  cbn [mbind result_bind notified submitted]. by rewrite !app_nil_r.
Qed.

Lemma one_design_document_one_group_witness :
  let def n := {| design := "tests"; name := n; map_fun := Some "function(doc){}";
                  reduce_fun := None; filter_fun := None;
                  language := "javascript"; options := VNone;
                  defaults := ∅ |} in
  groupby [def "a"; def "b"] = [("tests", [def "a"; def "b"])].
Proof.
  intros def.
  apply (one_design_document_one_group ∅ "tests" [def "a"; def "b"] false None).
  - discriminate.
  - repeat constructor.
Defined.


(** ** Documents of the database that no definition names *)

Lemma groupby_keys views k :
  k ∈ (groupby views).*1 → ∃ view, view ∈ views ∧ design view = k.
Proof.
  intros ([k' g] & -> & Hg)%list_elem_of_fmap. cbn [fst].
  destruct (groupby_groups _ _ _ Hg) as [Hne Hall].
  destruct g as [|view g]; [done|]. exists view. split.
  - rewrite <- (groupby_concat views). apply list_elem_of_In, in_concat.
    exists (view :: g). split; [|by left].
    apply list_elem_of_In, list_elem_of_fmap. by exists (k', view :: g).
  - by apply Forall_inv in Hall.
Qed.

(** X17. A call that returned, without a callback or with one that
    leaves the documents as they are handed to it, has changed no
    document of the database but the design documents its definitions
    name. *)
Theorem other_documents_are_untouched db views rm cb db1 doc_id :
  observer cb →
  sync_many_db db views rm cb = OK db1 →
  (∀ view, view ∈ views → doc_id ≠ design_id (design view)) →
  db1 !! doc_id = db !! doc_id.
Proof.
  intros Hobs Hdb Hid. unfold sync_many_db in Hdb.
  rewrite sync_many_observer in Hdb by done.
  destruct (changed_docs db rm (groupby views)) as [docs|] eqn:Hdocs; [|done].
  cbn [mbind result_bind submitted] in Hdb. injection Hdb as <-.
  apply db_update_other.
  eapply Forall_impl; [by eapply changed_docs_ids|].
  intros d (k & Hk & Hd) Heq. rewrite Hd in Heq. injection Heq as <-.
  apply groupby_keys in Hk as (view & Hview & <-). by apply (Hid view).
Qed.

(** A design document and a document of the application. *)
Lemma other_documents_are_untouched_witness :
  let view := {| design := "tests"; name := "all"; map_fun := Some "function(doc){}";
                 reduce_fun := None; filter_fun := None; language := "javascript";
                 options := VNone; defaults := ∅ |} in
  let db : database := {[ "mydoc" := {[ "_rev" := VNum 1 ]} ]} in
  ∃ db1, sync_many_db db [view] false None = OK db1 ∧
         db1 !! "mydoc" = db !! "mydoc".
Proof.
  intros view db.
  destruct (result_check (sync_many_db db [view] false None) (λ _, true))
    as (db1 & Hdb1 & _); [vm_compute; reflexivity|].
  exists db1. split; [exact Hdb1|].
  apply (other_documents_are_untouched db [view] false None db1 "mydoc");
    [intros f Hf; discriminate Hf|exact Hdb1|].
  intros v Hv. apply list_elem_of_singleton in Hv as ->. discriminate.
Defined.
